(** * anime-scrobbler: the reconciliation and dedup pipeline

    A shallow embedding of [app/data/model.py] (the [DownloadableQueue]
    aggregate) and of [app/core/controller.py] (the [AppController]
    methods [find_plex_show], [search_nyaa_for_shows],
    [__download_torrent_file], [__move_torrent_to_monitored_directory],
    [__queue_downloaded_torrent_file] and [start_application]).

    The controller is effectful Python: it calls collaborators that may
    return or raise, it mutates [torrent_info.is_queued], it writes to the
    application store and it logs.  The embedding threads an explicit
    state through a small state-and-exception monad; every collaborator
    call and every log line is recorded, in program order, in the state.
    The [print] statements, which only draw separators on the console,
    are left out. *)

From Stdlib Require Import String List Bool Arith Lia.
Import ListNotations.
Open Scope string_scope.

Set Implicit Arguments.

(* ------------------------------------------------------------------ *)
(** ** Data the controller handles *)

(** [anilist.MediaEntry]: the controller reads [entry.media.status]
    (release status), [entry.status] (the user's own status) and
    [entry.media.title.userPreferred]. *)
Module MediaTitle.
Record t := mk { userPreferred : string }.
End MediaTitle.

Module Media.
Record t := mk { status : string; title : MediaTitle.t }.
End Media.

Module MediaEntry.
Record t := mk { media : Media.t; status : string }.
End MediaEntry.

(** [plexapi.video.Show]: opaque to the controller, which only passes it on. *)
Module Show.
Record t := mk { title : string }.
End Show.

(** [nyaa.TorrentInfo] and the [anime_info] it may carry. *)
Module AnimeInfo.
Record t := mk { anime_title : string }.
End AnimeInfo.

Module TorrentInfo.
Record t := mk {
    name : string;
    download_url : string;
    anime_info : option AnimeInfo.t;
    is_queued : bool
  }.

  (** The assignment [torrent_info.is_queued = success]. *)
Definition set_is_queued (torrent_info : t) (success : bool) : t :=
    {| name := name torrent_info;
       download_url := download_url torrent_info;
       anime_info := anime_info torrent_info;
       is_queued := success |}.
End TorrentInfo.

(** [nyaa.AppConfig], as far as the controller uses it. *)
Module AppConfig.
Record t := mk {
    torrent_monitor_directory : string;
    torrent_keep_file_after_queuing : bool;
    build_parent_save_path : string -> string
  }.
End AppConfig.

(** Python exceptions of class [Exception], the class both [except]
    clauses of the controller catch. *)
Inductive PyException : Type :=
| Exception (message : string).

(** What a call yields: a value, or a raised exception. *)
Inductive Result (A : Type) : Type :=
| Ok (value : A)
| Raise (e : PyException).
Arguments Ok {A} value.
Arguments Raise {A} e.

(* ------------------------------------------------------------------ *)
(** ** app/data/model.py *)

Module DownloadableQueue.
Record t := mk {
    shows_found_in_plex : list Show.t;
    shows_missing_in_plex : list MediaEntry.t;
    show_media_entry_in_plex : list MediaEntry.t
  }.

  (** [contains_items] returns [a or b or c]: one of the three lists
      themselves, not a boolean.  The lists hold different element types,
      so the returned object is one of two kinds. *)
Inductive field : Type :=
  | Shows (l : list Show.t)
  | MediaEntries (l : list MediaEntry.t).

  (** Python truth value of a list: it is true when the list has an element. *)
Definition truthy (v : field) : bool :=
    match v with
    | Shows [] => false
    | Shows (_ :: _) => true
    | MediaEntries [] => false
    | MediaEntries (_ :: _) => true
    end.

  (** Python [x or y]: [x] when [x] is true, else [y]. *)
Definition py_or (x y : field) : field :=
    if truthy x then x else y.

Definition contains_items (self : t) : field :=
    py_or (py_or (Shows (shows_found_in_plex self))
                 (MediaEntries (shows_missing_in_plex self)))
          (MediaEntries (show_media_entry_in_plex self)).
End DownloadableQueue.

(* ------------------------------------------------------------------ *)
(** ** The application store *)

(** Modelled from the spec: [NyaaModelHelper.create_dictionary_class] and
    [AppStore] are not part of the sources at hand.  The spec gives the
    store as a keyed record store with lookup by name and upsert, whose
    records are keyed by the candidate's name.  A record is the dictionary
    of the torrent's attributes at the time it is built; the store is the
    table of such documents; [search] returns the documents with the name
    asked for; [save_or_update] overwrites the documents of that name, or
    adds one when there is none.  Neither operation raises. *)
Module AppStore.
Definition document : Type := TorrentInfo.t.
Definition t : Type := list document.

Definition create_dictionary_class (torrent_info : TorrentInfo.t) : document :=
    torrent_info.

Definition where_name (n : string) (d : document) : bool :=
    String.eqb (TorrentInfo.name d) n.

Definition search (self : t) (n : string) : list document :=
    filter (where_name n) self.

Definition save_or_update (self : t) (model : document) : t :=
    if existsb (where_name (TorrentInfo.name model)) self
    then map (fun d => if where_name (TorrentInfo.name model) d then model else d) self
    else (self ++ [model])%list.
End AppStore.

(* ------------------------------------------------------------------ *)
(** ** What the run records *)

(** One constructor per [EventLogHelper] call site of the controller. *)
Inductive LogMessage : Type :=
| FetchedListOfShows (found missing : nat)
| SearchingForMissingItems
| UnableToFind (title : string)
| SearchingForMatchingItems
| NoNewReleasesFound (media : MediaEntry.t)
| DownloadingTorrent (name : string)
| DownloadSuccessful (anime_info : option AnimeInfo.t)
| FailedToDownload (anime_info : option AnimeInfo.t)
| MoveFailed (e : PyException)
| SkippingTorrentWithoutAnimeInfo (torrent_info : TorrentInfo.t)
| SkippingExistingDownload (anime_info : option AnimeInfo.t)
| NoNewEpisodes
| UncaughtException (e : PyException).

(** The collaborator calls and log lines of a run.  A call made on behalf
    of a torrent carries that torrent, so that it can be told which
    candidate a call was made for: [AddTorrentMagnet torrent_info] is the
    call [add_torrent_magnet(filename=torrent_info.download_url)]. *)
Inductive Event : Type :=
| MakeRequest
| AniListSearch (list_name : option string)
| FindAllByTitle (entry : MediaEntry.t)
| SearchForMissingShows (media : MediaEntry.t)
| SearchForShows (show : Show.t) (media : MediaEntry.t)
| StoreSearch (name : string)
| StoreSaveOrUpdate (model : AppStore.document)
| AddTorrentMagnet (torrent_info : TorrentInfo.t)
| DownloadTorrentFile (torrent_info : TorrentInfo.t)
| CopyOrMoveFile (torrent_info : TorrentInfo.t)
                 (filename directory_path destination_path : string)
                 (keep_file : bool)
| LogInfo (m : LogMessage)
| LogError (m : LogMessage).

(* ------------------------------------------------------------------ *)
(** ** Collaborators *)

(** The services the controller is constructed with.  Each operation
    reads and changes a world [W] the controller cannot see, and either
    returns or raises. *)
Record Collaborators (W : Type) : Type := {
  anilist_make_request : W -> Result unit * W;
  anilist_store_search : option string -> W -> Result (list MediaEntry.t) * W;
  plex_find_all_by_title : MediaEntry.t -> W -> Result (list Show.t) * W;
  nyaa_search_for_missing_shows :
    MediaEntry.t -> AppConfig.t -> W -> Result (list TorrentInfo.t) * W;
  nyaa_search_for_shows :
    Show.t -> MediaEntry.t -> AppConfig.t -> W -> Result (list TorrentInfo.t) * W;
  nyaa_download_torrent_file :
    TorrentInfo.t -> AppConfig.t -> W -> Result bool * W;
  transmission_add_torrent_magnet : string -> W -> Result bool * W;
  storage_copy_or_move_file :
    string -> string -> string -> bool -> W -> Result unit * W
}.

(** Modelled from the spec: [PlexController.find_all_by_title] is not part
    of the sources at hand.  It is handed a callback and, by the spec,
    invokes it with the entry exactly when it has no item to return. *)
Definition find_all_by_title_calls_back (show : list Show.t) : bool :=
  match show with
  | [] => true
  | _ :: _ => false
  end.

(* ------------------------------------------------------------------ *)
(** ** The state of a run and the monad that threads it *)

Section Run.

Variable W : Type.

Record AppState : Type := {
  world : W;
  app_store : AppStore.t;
  events : list Event
}.

Definition M (A : Type) : Type := AppState -> Result A * AppState.

Definition ret {A : Type} (a : A) : M A :=
  fun st => (Ok a, st).

Definition bind {A B : Type} (m : M A) (k : A -> M B) : M B :=
  fun st =>
    match m st with
    | (Ok a, st') => k a st'
    | (Raise e, st') => (Raise e, st')
    end.

(** [try: body except Exception as e: handler e].  What the body did to
    the state before it raised stays done. *)
Definition try_except {A : Type} (body : M A) (handler : PyException -> M A) : M A :=
  fun st =>
    match body st with
    | (Ok a, st') => (Ok a, st')
    | (Raise e, st') => handler e st'
    end.

Definition emit (ev : Event) : M unit :=
  fun st =>
    (Ok tt, {| world := world st;
               app_store := app_store st;
               events := events st ++ [ev] |}).

(** A collaborator call: recorded, then run against the world. *)
Definition call {A : Type} (ev : Event) (op : W -> Result A * W) : M A :=
  fun st =>
    let (r, w) := op (world st) in
    (r, {| world := w;
           app_store := app_store st;
           events := events st ++ [ev] |}).

Definition log_info (m : LogMessage) : M unit := emit (LogInfo m).
Definition log_error (m : LogMessage) : M unit := emit (LogError m).

Definition app_store_search (n : string) : M (list AppStore.document) :=
  fun st =>
    (Ok (AppStore.search (app_store st) n),
     {| world := world st;
        app_store := app_store st;
        events := events st ++ [StoreSearch n] |}).

Definition app_store_save_or_update (model : AppStore.document) : M unit :=
  fun st =>
    (Ok tt,
     {| world := world st;
        app_store := AppStore.save_or_update (app_store st) model;
        events := events st ++ [StoreSaveOrUpdate model] |}).

End Run.

Arguments ret {W A} a.
Arguments bind {W A B} m k.
Arguments try_except {W A} body handler.
Arguments emit {W} ev.
Arguments call {W A} ev op.
Arguments log_info {W} m.
Arguments log_error {W} m.
Arguments app_store_search {W} n.
Arguments app_store_save_or_update {W} model.

Declare Scope run_scope.
Delimit Scope run_scope with run.
Notation "x <- m ;; k" := (bind m (fun x => k))
  (at level 100, m at next level, right associativity) : run_scope.
Notation "m ;;; k" := (bind m (fun _ => k))
  (at level 100, right associativity) : run_scope.
Open Scope run_scope.

(** A [for] statement whose body may raise: the first exception ends it. *)
Fixpoint for_each {W A : Type} (l : list A) (body : A -> M W unit) : M W unit :=
  match l with
  | [] => ret tt
  | x :: rest => body x ;;; for_each rest body
  end.

(** A [for] statement that updates local variables [S] as it goes. *)
Fixpoint for_each_acc {W A S : Type}
  (l : list A) (body : A -> S -> M W S) (locals : S) : M W S :=
  match l with
  | [] => ret locals
  | x :: rest => locals' <- body x locals ;; for_each_acc rest body locals'
  end.

Definition raise {W A : Type} (e : PyException) : M W A :=
  fun st => (Raise e, st).

(* ------------------------------------------------------------------ *)
(** ** app/core/controller.py: [AppController] *)

Module AppController.
Section Methods.

Variable W : Type.
Variable self_collaborators : Collaborators W.
Variable self_list_name : option string.
Variable self_app_config : AppConfig.t.

Let C := self_collaborators.

Definition fetch_anime_list : M W (list MediaEntry.t) :=
  match self_list_name with
  | Some _ => call MakeRequest (anilist_make_request C)
  | None => ret tt
  end ;;;
  call (AniListSearch self_list_name) (anilist_store_search C self_list_name).

Definition add_missing_item
  (media_entry : MediaEntry.t) (append_list : list MediaEntry.t) : list MediaEntry.t :=
  (append_list ++ [media_entry])%list.

(** The three local lists of [find_plex_show]. *)
Record find_plex_show_locals : Type := {
  shows_in_plex_matching_users_list : list Show.t;
  show_media_entry_mapped_to_plex : list MediaEntry.t;
  shows_missing_in_plex_found_on_users_list : list MediaEntry.t
}.

(** The body of [for entry in media_entries]. *)
Definition find_plex_show_body
  (entry : MediaEntry.t) (locals : find_plex_show_locals) : M W find_plex_show_locals :=
  if negb (String.eqb (Media.status (MediaEntry.media entry)) "NOT_YET_RELEASED") then
    if negb (String.eqb (MediaEntry.status entry) "COMPLETED") then
      show <- call (FindAllByTitle entry) (plex_find_all_by_title C entry) ;;
      let missing :=
        if find_all_by_title_calls_back show
        then add_missing_item entry (shows_missing_in_plex_found_on_users_list locals)
        else shows_missing_in_plex_found_on_users_list locals in
      match show with
      | _ :: _ =>
          ret {| shows_in_plex_matching_users_list :=
                   (shows_in_plex_matching_users_list locals ++ show)%list;
                 show_media_entry_mapped_to_plex :=
                   (show_media_entry_mapped_to_plex locals ++ [entry])%list;
                 shows_missing_in_plex_found_on_users_list := missing |}
      | [] =>
          ret {| shows_in_plex_matching_users_list :=
                   shows_in_plex_matching_users_list locals;
                 show_media_entry_mapped_to_plex :=
                   show_media_entry_mapped_to_plex locals;
                 shows_missing_in_plex_found_on_users_list := missing |}
      end
    else ret locals
  else ret locals.

Definition find_plex_show (media_entries : list MediaEntry.t) : M W DownloadableQueue.t :=
  locals <- for_each_acc media_entries find_plex_show_body
              {| shows_in_plex_matching_users_list := [];
                 show_media_entry_mapped_to_plex := [];
                 shows_missing_in_plex_found_on_users_list := [] |} ;;
  log_info (FetchedListOfShows
              (length (shows_in_plex_matching_users_list locals))
              (length (shows_missing_in_plex_found_on_users_list locals))) ;;;
  ret (DownloadableQueue.mk
         (shows_in_plex_matching_users_list locals)
         (shows_missing_in_plex_found_on_users_list locals)
         (show_media_entry_mapped_to_plex locals)).

(** The body of [for media in download_queue.shows_missing_in_plex]. *)
Definition search_missing_body
  (media : MediaEntry.t) (torrent_search_result_list_for_missing_shows : list TorrentInfo.t)
  : M W (list TorrentInfo.t) :=
  torrent_search_results <-
    call (SearchForMissingShows media)
         (nyaa_search_for_missing_shows C media self_app_config) ;;
  if Nat.ltb 0 (length torrent_search_results) then
    ret (torrent_search_result_list_for_missing_shows ++ torrent_search_results)%list
  else
    log_info (UnableToFind (MediaTitle.userPreferred (Media.title (MediaEntry.media media)))) ;;;
    ret torrent_search_result_list_for_missing_shows.

(** The body of [for show, media in zip(...)]. *)
Definition search_found_body
  (show_media : Show.t * MediaEntry.t) (torrent_search_result_list : list TorrentInfo.t)
  : M W (list TorrentInfo.t) :=
  let (show, media) := show_media in
  torrent_search_results <-
    call (SearchForShows show media)
         (nyaa_search_for_shows C show media self_app_config) ;;
  if Nat.ltb 0 (length torrent_search_results) then
    ret (torrent_search_result_list ++ torrent_search_results)%list
  else
    log_info (NoNewReleasesFound media) ;;;
    ret torrent_search_result_list.

Definition search_nyaa_for_shows (download_queue : DownloadableQueue.t)
  : M W (list TorrentInfo.t) :=
  log_info SearchingForMissingItems ;;;
  torrent_search_result_list_for_missing_shows <-
    for_each_acc (DownloadableQueue.shows_missing_in_plex download_queue)
                 search_missing_body [] ;;
  log_info SearchingForMatchingItems ;;;
  torrent_search_result_list <-
    for_each_acc (combine (DownloadableQueue.shows_found_in_plex download_queue)
                          (DownloadableQueue.show_media_entry_in_plex download_queue))
                 search_found_body [] ;;
  ret (torrent_search_result_list ++ torrent_search_result_list_for_missing_shows)%list.

Definition find_downloadable_torrents (torrent_info : TorrentInfo.t)
  : M W (list AppStore.document) :=
  app_store_search (TorrentInfo.name torrent_info).

(** [torrent_info.anime_info.anime_title]: an [AttributeError] when
    [anime_info] is [None]. *)
Definition anime_info_anime_title (torrent_info : TorrentInfo.t) : M W string :=
  match TorrentInfo.anime_info torrent_info with
  | Some info => ret (AnimeInfo.anime_title info)
  | None => raise (Exception "'NoneType' object has no attribute 'anime_title'")
  end.

Definition move_torrent_to_monitored_directory (torrent_info : TorrentInfo.t) : M W unit :=
  try_except
    (let filename := TorrentInfo.name torrent_info ++ ".torrent" in
     anime_title <- anime_info_anime_title torrent_info ;;
     let directory_path := AppConfig.build_parent_save_path self_app_config anime_title in
     let destination_path := AppConfig.torrent_monitor_directory self_app_config in
     let keep_file := AppConfig.torrent_keep_file_after_queuing self_app_config in
     call (CopyOrMoveFile torrent_info filename directory_path destination_path keep_file)
          (storage_copy_or_move_file C filename directory_path destination_path keep_file) ;;;
     app_store_save_or_update (AppStore.create_dictionary_class torrent_info))
    (fun e => log_error (MoveFailed e)).

Definition download_torrent_file (torrent_info : TorrentInfo.t) : M W unit :=
  log_info (DownloadingTorrent (TorrentInfo.name torrent_info)) ;;;
  is_download_successful <-
    call (DownloadTorrentFile torrent_info)
         (nyaa_download_torrent_file C torrent_info self_app_config) ;;
  if is_download_successful : bool then
    app_store_save_or_update (AppStore.create_dictionary_class torrent_info) ;;;
    log_info (DownloadSuccessful (TorrentInfo.anime_info torrent_info)) ;;;
    move_torrent_to_monitored_directory torrent_info
  else
    log_info (FailedToDownload (TorrentInfo.anime_info torrent_info)).

(** Returns [success] and, beside it, [torrent_info] as the method leaves
    it: the object is mutated in place. *)
Definition queue_downloaded_torrent_file (torrent_info : TorrentInfo.t)
  : M W (bool * TorrentInfo.t) :=
  success <-
    call (AddTorrentMagnet torrent_info)
         (transmission_add_torrent_magnet C (TorrentInfo.download_url torrent_info)) ;;
  let torrent_info := TorrentInfo.set_is_queued torrent_info success in
  (if success : bool
   then app_store_save_or_update (AppStore.create_dictionary_class torrent_info)
   else ret tt) ;;;
  ret (success, torrent_info).

(** The statement [if downloaded_torrent is None or len(downloaded_torrent) < 1]
    of the loop body, with its [else]. *)
Definition start_application_guard
  (torrent_info : TorrentInfo.t) (downloaded_torrent : list AppStore.document) : M W unit :=
  if Nat.ltb (length downloaded_torrent) 1 then
    r <- queue_downloaded_torrent_file torrent_info ;;
    let (queued, torrent_info) := r : bool * TorrentInfo.t in
    if negb queued then download_torrent_file torrent_info else ret tt
  else
    log_info (SkippingExistingDownload (TorrentInfo.anime_info torrent_info)).

(** The body of [for torrent_info in search_results]. *)
Definition start_application_body (torrent_info : TorrentInfo.t) : M W unit :=
  match TorrentInfo.anime_info torrent_info with
  | None => log_info (SkippingTorrentWithoutAnimeInfo torrent_info)
  | Some _ =>
      downloaded_torrent <- find_downloadable_torrents torrent_info ;;
      start_application_guard torrent_info downloaded_torrent
  end.

(** The statement [if search_results is not None and len(search_results) > 0]
    of [start_application], with its [for] and its [else]. *)
Definition start_application_decide (search_results : list TorrentInfo.t) : M W unit :=
  if Nat.ltb 0 (length search_results) then
    for_each search_results start_application_body
  else
    log_info NoNewEpisodes.

(** What stands inside the [try] of [start_application]. *)
Definition start_application_try : M W unit :=
  anime_list <- fetch_anime_list ;;
  match anime_list with
  | [] => ret tt
  | _ :: _ =>
      download_queue <- find_plex_show anime_list ;;
      if DownloadableQueue.truthy (DownloadableQueue.contains_items download_queue) then
        search_results <- search_nyaa_for_shows download_queue ;;
        start_application_decide search_results
      else ret tt
  end.

Definition start_application : M W unit :=
  try_except start_application_try
             (fun e => log_error (UncaughtException e)).

End Methods.
End AppController.

(* ------------------------------------------------------------------ *)
(** ** Relations between the state before and the state after *)

(** Every event a computation adds satisfies [P], and the store moves
    along [Q]. *)
Definition trace_rel {W : Type} (P : Event -> Prop)
  (Q : AppStore.t -> AppStore.t -> Prop) (st st' : AppState W) : Prop :=
  Q (app_store st) (app_store st') /\
  exists d, events st' = (events st ++ d)%list /\ Forall P d.

Definition respects {W A : Type} (P : Event -> Prop)
  (Q : AppStore.t -> AppStore.t -> Prop) (m : M W A) : Prop :=
  forall st, trace_rel P Q st (snd (m st)).

Definition has_record (s : AppStore.t) (n : string) : Prop :=
  AppStore.search s n <> [].

(* ------------------------------------------------------------------ *)
(** ** Reading a trace *)

(** The candidate a store write, a client call or a file move was made
    for, by name; [None] for every other event. *)
Definition mutation_for (ev : Event) : option string :=
  match ev with
  | StoreSaveOrUpdate model => Some (TorrentInfo.name model)
  | AddTorrentMagnet torrent_info => Some (TorrentInfo.name torrent_info)
  | DownloadTorrentFile torrent_info => Some (TorrentInfo.name torrent_info)
  | CopyOrMoveFile torrent_info _ _ _ _ => Some (TorrentInfo.name torrent_info)
  | _ => None
  end.

(** In the trace [d], is every upsert of a record named [n] preceded by a
    file move made for [n]?  [moved] tells whether such a move was already
    seen. *)
Fixpoint upsert_only_after_move (n : string) (moved : bool) (d : list Event) : bool :=
  match d with
  | [] => true
  | CopyOrMoveFile torrent_info _ _ _ _ :: rest =>
      upsert_only_after_move n (moved || String.eqb (TorrentInfo.name torrent_info) n) rest
  | StoreSaveOrUpdate model :: rest =>
      (if String.eqb (TorrentInfo.name model) n then moved else true)
      && upsert_only_after_move n moved rest
  | _ :: rest => upsert_only_after_move n moved rest
  end.

(** In the trace [d], is there an upsert of a record named [n] after a
    file move made for [n]? *)
Fixpoint upsert_after_move (n : string) (moved : bool) (d : list Event) : bool :=
  match d with
  | [] => false
  | CopyOrMoveFile torrent_info _ _ _ _ :: rest =>
      upsert_after_move n (moved || String.eqb (TorrentInfo.name torrent_info) n) rest
  | StoreSaveOrUpdate model :: rest =>
      (String.eqb (TorrentInfo.name model) n && moved)
      || upsert_after_move n moved rest
  | _ :: rest => upsert_after_move n moved rest
  end.

(** The mark a candidate leaves at the start of its turn in the decision
    loop: the store lookup under its name, or the log line that skips it
    for want of [anime_info]. *)
Definition visit_mark (torrent_info : TorrentInfo.t) : Event :=
  match TorrentInfo.anime_info torrent_info with
  | None => LogInfo (SkippingTorrentWithoutAnimeInfo torrent_info)
  | Some _ => StoreSearch (TorrentInfo.name torrent_info)
  end.

(* ------------------------------------------------------------------ *)
(** ** The two groups of search results, as the spec words them *)

(** The missing-search results: one [search_for_missing_shows] per entry,
    issued in list order, the results put end to end in that order. *)
Fixpoint missing_search_results {W : Type} (C : Collaborators W) (config : AppConfig.t)
  (missing : list MediaEntry.t) (w : W) : Result (list TorrentInfo.t) * W :=
  match missing with
  | [] => (Ok [], w)
  | media :: rest =>
      match nyaa_search_for_missing_shows C media config w with
      | (Ok results, w1) =>
          match missing_search_results C config rest w1 with
          | (Ok more, w2) => (Ok (results ++ more)%list, w2)
          | (Raise e, w2) => (Raise e, w2)
          end
      | (Raise e, w1) => (Raise e, w1)
      end
  end.

(** The found-search results: one [search_for_shows] per pair of library
    item and entry, issued in list order, the results put end to end. *)
Fixpoint found_search_results {W : Type} (C : Collaborators W) (config : AppConfig.t)
  (pairs : list (Show.t * MediaEntry.t)) (w : W) : Result (list TorrentInfo.t) * W :=
  match pairs with
  | [] => (Ok [], w)
  | (show, media) :: rest =>
      match nyaa_search_for_shows C show media config w with
      | (Ok results, w1) =>
          match found_search_results C config rest w1 with
          | (Ok more, w2) => (Ok (results ++ more)%list, w2)
          | (Raise e, w2) => (Raise e, w2)
          end
      | (Raise e, w1) => (Raise e, w1)
      end
  end.

(* ------------------------------------------------------------------ *)
(** ** Entries the reconciliation looks at *)

(** The two tests [find_plex_show] makes before it asks the library. *)
Definition looked_up (entry : MediaEntry.t) : Prop :=
  Media.status (MediaEntry.media entry) <> "NOT_YET_RELEASED" /\
  MediaEntry.status entry <> "COMPLETED".

(* ------------------------------------------------------------------ *)
(** ** Events made for a candidate *)

(** An event that is not a write, a client call or a move made for some
    other name than [n]. *)
Definition concerns (n : string) (ev : Event) : Prop :=
  match mutation_for ev with
  | Some m => m = n
  | None => True
  end.

(* ------------------------------------------------------------------ *)
(** ** The library's answers, entry by entry *)

(** The two tests of [find_plex_show], as one boolean. *)
Definition is_looked_up (entry : MediaEntry.t) : bool :=
  negb (String.eqb (Media.status (MediaEntry.media entry)) "NOT_YET_RELEASED")
  && negb (String.eqb (MediaEntry.status entry) "COMPLETED").

(** What the library answers when asked, in list order, about each entry
    that passes the two tests: the entry beside the shows returned for
    it.  The first query that raises ends the walk. *)
Fixpoint library_answers {W : Type} (C : Collaborators W)
  (entries : list MediaEntry.t) (w : W)
  : Result (list (MediaEntry.t * list Show.t)) * W :=
  match entries with
  | [] => (Ok [], w)
  | entry :: rest =>
      if is_looked_up entry then
        match plex_find_all_by_title C entry w with
        | (Ok show, w1) =>
            match library_answers C rest w1 with
            | (Ok more, w2) => (Ok ((entry, show) :: more), w2)
            | (Raise e, w2) => (Raise e, w2)
            end
        | (Raise e, w1) => (Raise e, w1)
        end
      else library_answers C rest w
  end.

(** Did the library return at least one show for the entry? *)
Definition answered (a : MediaEntry.t * list Show.t) : bool :=
  match snd a with
  | [] => false
  | _ :: _ => true
  end.

Definition unanswered (a : MediaEntry.t * list Show.t) : bool :=
  negb (answered a).

(* ------------------------------------------------------------------ *)
(** ** Events of the store, the client and the file mover *)

(** Is the event a lookup or a write in the application store, a call to
    the download client, a direct download or a file move? *)
Definition touches_store_or_client (ev : Event) : bool :=
  match ev with
  | StoreSearch _ => true
  | StoreSaveOrUpdate _ => true
  | AddTorrentMagnet _ => true
  | DownloadTorrentFile _ => true
  | CopyOrMoveFile _ _ _ _ _ => true
  | _ => false
  end.

(** A computation that, started with a record under [X] in the store,
    makes no write, client call, download or move for [X] and ends with a
    record under [X] in the store. *)
Definition keeps_record {W A : Type} (X : string) (m : M W A) : Prop :=
  forall st,
    has_record (app_store st) X ->
    trace_rel (fun ev => mutation_for ev <> Some X)
              (fun s s' => has_record s X -> has_record s' X)
              st (snd (m st)).

(** Is the event one of the two searches of the torrent index? *)
Definition is_search_call (ev : Event) : bool :=
  match ev with
  | SearchForMissingShows _ => true
  | SearchForShows _ _ => true
  | _ => false
  end.

Definition search_for_shows_event (pair : Show.t * MediaEntry.t) : Event :=
  SearchForShows (fst pair) (snd pair).

(* ------------------------------------------------------------------ *)
(** ** Acquisitions and writes in a trace *)

(** Is the event an attempt to get the torrent: the enqueue with the
    client, or the direct download? *)
Definition is_acquire (ev : Event) : bool :=
  match ev with
  | AddTorrentMagnet _ => true
  | DownloadTorrentFile _ => true
  | _ => false
  end.

Definition is_save (ev : Event) : bool :=
  match ev with
  | StoreSaveOrUpdate _ => true
  | _ => false
  end.

(** In the trace [d], does no attempt of any kind follow a write? *)
Fixpoint quiet_after_save (d : list Event) : bool :=
  match d with
  | [] => true
  | ev :: rest =>
      (if is_save ev then forallb (fun ev' => negb (is_acquire ev')) rest else true)
      && quiet_after_save rest
  end.

(* ------------------------------------------------------------------ *)
(** ** One acquisition per name *)

(** In the trace [d], once a record has been written under a name, no
    enqueue and no direct download is made for that name any more. *)
Definition acquired_once (d : list Event) : Prop :=
  forall d1 model d2,
    d = (d1 ++ StoreSaveOrUpdate model :: d2)%list ->
    Forall (fun ev => is_acquire ev = true ->
                      mutation_for ev <> Some (TorrentInfo.name model)) d2.

(* ------------------------------------------------------------------ *)
(** ** The events of a candidate's turn *)

(** The events the turn of a candidate can add: its lookup; the enqueue
    of the candidate as it came; an upsert of the candidate with its
    flag set; the direct download of the candidate flagged as refused;
    the move of its torrent file, named after it, from the save path
    built from its title to the monitored directory, with the configured
    keep flag; and log lines. *)
Inductive turn_event (config : AppConfig.t) (candidate : TorrentInfo.t) : Event -> Prop :=
| turn_lookup :
    turn_event config candidate (StoreSearch (TorrentInfo.name candidate))
| turn_enqueue :
    turn_event config candidate (AddTorrentMagnet candidate)
| turn_upsert (flag : bool) :
    turn_event config candidate
      (StoreSaveOrUpdate
         (AppStore.create_dictionary_class (TorrentInfo.set_is_queued candidate flag)))
| turn_download :
    turn_event config candidate
      (DownloadTorrentFile (TorrentInfo.set_is_queued candidate false))
| turn_move (info : AnimeInfo.t) :
    TorrentInfo.anime_info candidate = Some info ->
    turn_event config candidate
      (CopyOrMoveFile (TorrentInfo.set_is_queued candidate false)
         (TorrentInfo.name candidate ++ ".torrent")
         (AppConfig.build_parent_save_path config (AnimeInfo.anime_title info))
         (AppConfig.torrent_monitor_directory config)
         (AppConfig.torrent_keep_file_after_queuing config))
| turn_log_info (m : LogMessage) : turn_event config candidate (LogInfo m)
| turn_log_error (m : LogMessage) : turn_event config candidate (LogError m).

(* ------------------------------------------------------------------ *)
(** ** The controller over a store that may fail *)

(** The three places where the controller builds a record and writes it:
    [__queue_downloaded_torrent_file] after an accepted magnet,
    [__download_torrent_file] after a successful download, and
    [__move_torrent_to_monitored_directory] after the move, inside its
    [try]. *)
Inductive WriteSite : Type :=
| AfterEnqueue
| AfterDownload
| AfterMove.

(** Whether a lookup or a write raises instead of returning.  Like the
    other collaborators the store answers from the world [W]; a write is
    asked about together with the place it is made from, and a write
    that raises also tells whether the record reached the table before
    the exception. *)
Record StoreFaults (W : Type) : Type := {
  search_fault : string -> W -> option PyException * W;
  save_fault :
    WriteSite -> AppStore.document -> W -> option (PyException * bool) * W
}.

(** [app_store.search] that may raise. *)
Definition store_search_or_raise {W : Type} (F : StoreFaults W) (n : string)
  : M W (list AppStore.document) :=
  fun st =>
    match search_fault F n (world st) with
    | (Some e, w) =>
        (Raise e,
         {| world := w; app_store := app_store st;
            events := (events st ++ [StoreSearch n])%list |})
    | (None, w) =>
        (Ok (AppStore.search (app_store st) n),
         {| world := w; app_store := app_store st;
            events := (events st ++ [StoreSearch n])%list |})
    end.

(** [create_dictionary_class] followed by [app_store.save_or_update],
    either of which may raise; a write that raises is recorded as made,
    and the table holds the record or not as the fault says. *)
Definition store_save_or_raise {W : Type} (F : StoreFaults W) (site : WriteSite)
  (model : AppStore.document) : M W unit :=
  fun st =>
    match save_fault F site model (world st) with
    | (Some (e, written), w) =>
        (Raise e,
         {| world := w;
            app_store := if written : bool
                         then AppStore.save_or_update (app_store st) model
                         else app_store st;
            events := (events st ++ [StoreSaveOrUpdate model])%list |})
    | (None, w) =>
        (Ok tt,
         {| world := w;
            app_store := AppStore.save_or_update (app_store st) model;
            events := (events st ++ [StoreSaveOrUpdate model])%list |})
    end.

(** The methods of the decision phase once more, statement for statement
    as in [AppController], with the two operations of [self.app_store]
    taken as parameters, so that they can be read over a store that
    raises as well as over the one that does not. *)
Module AppControllerOver.
Section Methods.

Variable W : Type.
Variable self_collaborators : Collaborators W.
Variable self_app_config : AppConfig.t.
Variable self_app_store_search : string -> M W (list AppStore.document).
Variable self_app_store_save_or_update : WriteSite -> AppStore.document -> M W unit.

Let C := self_collaborators.

Definition find_downloadable_torrents (torrent_info : TorrentInfo.t)
  : M W (list AppStore.document) :=
  self_app_store_search (TorrentInfo.name torrent_info).

Definition move_torrent_to_monitored_directory (torrent_info : TorrentInfo.t) : M W unit :=
  try_except
    (let filename := TorrentInfo.name torrent_info ++ ".torrent" in
     anime_title <- AppController.anime_info_anime_title torrent_info ;;
     let directory_path := AppConfig.build_parent_save_path self_app_config anime_title in
     let destination_path := AppConfig.torrent_monitor_directory self_app_config in
     let keep_file := AppConfig.torrent_keep_file_after_queuing self_app_config in
     call (CopyOrMoveFile torrent_info filename directory_path destination_path keep_file)
          (storage_copy_or_move_file C filename directory_path destination_path keep_file) ;;;
     self_app_store_save_or_update AfterMove
       (AppStore.create_dictionary_class torrent_info))
    (fun e => log_error (MoveFailed e)).

Definition download_torrent_file (torrent_info : TorrentInfo.t) : M W unit :=
  log_info (DownloadingTorrent (TorrentInfo.name torrent_info)) ;;;
  is_download_successful <-
    call (DownloadTorrentFile torrent_info)
         (nyaa_download_torrent_file C torrent_info self_app_config) ;;
  if is_download_successful : bool then
    self_app_store_save_or_update AfterDownload
      (AppStore.create_dictionary_class torrent_info) ;;;
    log_info (DownloadSuccessful (TorrentInfo.anime_info torrent_info)) ;;;
    move_torrent_to_monitored_directory torrent_info
  else
    log_info (FailedToDownload (TorrentInfo.anime_info torrent_info)).

Definition queue_downloaded_torrent_file (torrent_info : TorrentInfo.t)
  : M W (bool * TorrentInfo.t) :=
  success <-
    call (AddTorrentMagnet torrent_info)
         (transmission_add_torrent_magnet C (TorrentInfo.download_url torrent_info)) ;;
  let torrent_info := TorrentInfo.set_is_queued torrent_info success in
  (if success : bool
   then self_app_store_save_or_update AfterEnqueue
          (AppStore.create_dictionary_class torrent_info)
   else ret tt) ;;;
  ret (success, torrent_info).

Definition start_application_guard
  (torrent_info : TorrentInfo.t) (downloaded_torrent : list AppStore.document) : M W unit :=
  if Nat.ltb (length downloaded_torrent) 1 then
    r <- queue_downloaded_torrent_file torrent_info ;;
    let (queued, torrent_info) := r : bool * TorrentInfo.t in
    if negb queued then download_torrent_file torrent_info else ret tt
  else
    log_info (SkippingExistingDownload (TorrentInfo.anime_info torrent_info)).

Definition start_application_body (torrent_info : TorrentInfo.t) : M W unit :=
  match TorrentInfo.anime_info torrent_info with
  | None => log_info (SkippingTorrentWithoutAnimeInfo torrent_info)
  | Some _ =>
      downloaded_torrent <- find_downloadable_torrents torrent_info ;;
      start_application_guard torrent_info downloaded_torrent
  end.

End Methods.
End AppControllerOver.

(** The turn of a candidate in the decision loop, over a store that may
    raise as [F] says. *)
Definition turn_over {W : Type} (C : Collaborators W) (config : AppConfig.t)
  (F : StoreFaults W) (torrent_info : TorrentInfo.t) : M W unit :=
  AppControllerOver.start_application_body C config
    (store_search_or_raise F) (store_save_or_raise F) torrent_info.

(** The move of a candidate's torrent file, as the move step calls the
    file mover. *)
Definition move_call {W : Type} (C : Collaborators W) (config : AppConfig.t)
  (torrent_info : TorrentInfo.t) (info : AnimeInfo.t) : W -> Result unit * W :=
  storage_copy_or_move_file C
    (TorrentInfo.name torrent_info ++ ".torrent")
    (AppConfig.build_parent_save_path config (AnimeInfo.anime_title info))
    (AppConfig.torrent_monitor_directory config)
    (AppConfig.torrent_keep_file_after_queuing config).

Definition move_event (config : AppConfig.t)
  (torrent_info : TorrentInfo.t) (info : AnimeInfo.t) : Event :=
  CopyOrMoveFile torrent_info
    (TorrentInfo.name torrent_info ++ ".torrent")
    (AppConfig.build_parent_save_path config (AnimeInfo.anime_title info))
    (AppConfig.torrent_monitor_directory config)
    (AppConfig.torrent_keep_file_after_queuing config).



(* ------------------------------------------------------------------ *)
(** ** The decision phase run to its end, and a turn that raises *)


(** The calls of a turn that stand outside the [try] of the move step,
    and what it is for one of them to raise [e], leaving the world [w']:
    the lookup, the enqueue, the write after an accepted magnet, the
    direct download, the write after a successful download. *)
Inductive turn_raises {W : Type} (C : Collaborators W) (config : AppConfig.t)
  (F : StoreFaults W) (candidate : TorrentInfo.t)
  : W -> AppStore.t -> PyException -> W -> Prop :=
| lookup_raises info w s e w' :
    TorrentInfo.anime_info candidate = Some info ->
    search_fault F (TorrentInfo.name candidate) w = (Some e, w') ->
    turn_raises C config F candidate w s e w'
| enqueue_raises info w s w0 e w' :
    TorrentInfo.anime_info candidate = Some info ->
    search_fault F (TorrentInfo.name candidate) w = (None, w0) ->
    AppStore.search s (TorrentInfo.name candidate) = [] ->
    transmission_add_torrent_magnet C (TorrentInfo.download_url candidate) w0 =
      (Raise e, w') ->
    turn_raises C config F candidate w s e w'
| write_after_enqueue_raises info w s w0 w1 e written w' :
    TorrentInfo.anime_info candidate = Some info ->
    search_fault F (TorrentInfo.name candidate) w = (None, w0) ->
    AppStore.search s (TorrentInfo.name candidate) = [] ->
    transmission_add_torrent_magnet C (TorrentInfo.download_url candidate) w0 =
      (Ok true, w1) ->
    save_fault F AfterEnqueue (TorrentInfo.set_is_queued candidate true) w1 =
      (Some (e, written), w') ->
    turn_raises C config F candidate w s e w'
| download_raises info w s w0 w1 e w' :
    TorrentInfo.anime_info candidate = Some info ->
    search_fault F (TorrentInfo.name candidate) w = (None, w0) ->
    AppStore.search s (TorrentInfo.name candidate) = [] ->
    transmission_add_torrent_magnet C (TorrentInfo.download_url candidate) w0 =
      (Ok false, w1) ->
    nyaa_download_torrent_file C (TorrentInfo.set_is_queued candidate false) config w1 =
      (Raise e, w') ->
    turn_raises C config F candidate w s e w'
| write_after_download_raises info w s w0 w1 w2 e written w' :
    TorrentInfo.anime_info candidate = Some info ->
    search_fault F (TorrentInfo.name candidate) w = (None, w0) ->
    AppStore.search s (TorrentInfo.name candidate) = [] ->
    transmission_add_torrent_magnet C (TorrentInfo.download_url candidate) w0 =
      (Ok false, w1) ->
    nyaa_download_torrent_file C (TorrentInfo.set_is_queued candidate false) config w1 =
      (Ok true, w2) ->
    save_fault F AfterDownload (TorrentInfo.set_is_queued candidate false) w2 =
      (Some (e, written), w') ->
    turn_raises C config F candidate w s e w'.

(** A store that never raises. *)
Definition store_never_fails {W : Type} : StoreFaults W :=
  {| search_fault := fun _ w => (None, w);
     save_fault := fun _ _ w => (None, w) |}.

(* ------------------------------------------------------------------ *)
(** ** Scripted collaborators for concrete runs *)

Module Scenario.

(** Collaborators without hidden state, each answering by a fixed table. *)
Definition scripted
  (fetch : Result (list MediaEntry.t))
  (plex : MediaEntry.t -> Result (list Show.t))
  (search_missing : MediaEntry.t -> Result (list TorrentInfo.t))
  (search_found : Show.t -> MediaEntry.t -> Result (list TorrentInfo.t))
  (download : TorrentInfo.t -> Result bool)
  (magnet : string -> Result bool)
  (move : string -> Result unit) : Collaborators unit :=
  {| anilist_make_request := fun w => (Ok tt, w);
     anilist_store_search := fun _ w => (fetch, w);
     plex_find_all_by_title := fun entry w => (plex entry, w);
     nyaa_search_for_missing_shows := fun media _ w => (search_missing media, w);
     nyaa_search_for_shows := fun show media _ w => (search_found show media, w);
     nyaa_download_torrent_file := fun torrent_info _ w => (download torrent_info, w);
     transmission_add_torrent_magnet := fun filename w => (magnet filename, w);
     storage_copy_or_move_file := fun filename _ _ _ w => (move filename, w) |}.

Definition entry (title release personal : string) : MediaEntry.t :=
  MediaEntry.mk (Media.mk release (MediaTitle.mk title)) personal.

Definition show_a : MediaEntry.t := entry "Show A" "FINISHED" "COMPLETED".
Definition show_b : MediaEntry.t := entry "Show B" "RELEASING" "CURRENT".
Definition show_c : MediaEntry.t := entry "Show C" "RELEASING" "CURRENT".
Definition show_d : MediaEntry.t := entry "Show D" "NOT_YET_RELEASED" "PLANNING".

Definition plex_show_c : Show.t := Show.mk "Show C".
Definition plex_show_c_dub : Show.t := Show.mk "Show C (Dub)".

Definition candidate (name url title : string) : TorrentInfo.t :=
  TorrentInfo.mk name url (Some (AnimeInfo.mk title)) false.

Definition show_b_e05 : TorrentInfo.t := candidate "Show.B.E05" "magnet:?xt=b05" "Show B".
Definition show_c_e07 : TorrentInfo.t := candidate "Show.C.E07" "magnet:?xt=c07" "Show C".

Definition config : AppConfig.t :=
  AppConfig.mk "/watch" false (fun title => "/anime/" ++ title).

Definition initial (store : AppStore.t) : AppState unit :=
  {| world := tt; app_store := store; events := [] |}.

Definition is_entry (a b : MediaEntry.t) : bool :=
  String.eqb (MediaTitle.userPreferred (Media.title (MediaEntry.media a)))
             (MediaTitle.userPreferred (Media.title (MediaEntry.media b))).

(** The library holds two items for the one title on the list. *)
Definition two_matches : Collaborators unit :=
  scripted (Ok [show_c])
           (fun _ => Ok [plex_show_c; plex_show_c_dub])
           (fun _ => Ok [])
           (fun _ _ => Ok [show_c_e07])
           (fun _ => Ok true) (fun _ => Ok true) (fun _ => Ok tt).

Definition plex_show_b : Show.t := Show.mk "Show B".

(** The library holds two items for Show C and one for Show B. *)
Definition two_matches_then_one : Collaborators unit :=
  scripted (Ok [show_c; show_b])
           (fun e => if is_entry e show_c
                     then Ok [plex_show_c; plex_show_c_dub]
                     else Ok [plex_show_b])
           (fun _ => Ok [])
           (fun _ _ => Ok [])
           (fun _ => Ok true) (fun _ => Ok true) (fun _ => Ok tt).

(** The list service cannot be reached. *)
Definition list_unreachable : Collaborators unit :=
  scripted (Raise (Exception "connection refused"))
           (fun _ => Ok []) (fun _ => Ok []) (fun _ _ => Ok [])
           (fun _ => Ok true) (fun _ => Ok true) (fun _ => Ok tt).

(** Scenario B of the spec: Show B is missing from the library, one
    release is found for it, and the client accepts or refuses the magnet
    as [magnet] says; [download] and [move] script the fallback. *)
Definition missing_show_b
  (magnet download : Result bool) (move : Result unit) : Collaborators unit :=
  scripted (Ok [show_b])
           (fun _ => Ok [])
           (fun _ => Ok [show_b_e05])
           (fun _ _ => Ok [])
           (fun _ => download) (fun _ => magnet) (fun _ => move).

(** Show B is missing from the library and Show C is in it; each search
    finds one release. *)
Definition mixed_library : Collaborators unit :=
  scripted (Ok [show_b; show_c])
           (fun e => if is_entry e show_c then Ok [plex_show_c] else Ok [])
           (fun _ => Ok [show_b_e05])
           (fun _ _ => Ok [show_c_e07])
           (fun _ => Ok true) (fun _ => Ok true) (fun _ => Ok tt).

Definition mixed_queue : DownloadableQueue.t :=
  DownloadableQueue.mk [plex_show_c] [show_b] [show_c].


(** As [mixed_library], with a client that refuses every magnet and a
    monitored directory that cannot be written. *)
Definition directory_read_only : Collaborators unit :=
  scripted (Ok [show_b; show_c])
           (fun e => if is_entry e show_c then Ok [plex_show_c] else Ok [])
           (fun _ => Ok [show_b_e05])
           (fun _ _ => Ok [show_c_e07])
           (fun _ => Ok true)
           (fun _ => Ok false)
           (fun _ => Raise (Exception "read-only file system")).

(** Scenario A of the spec: the one entry of the list is COMPLETED. *)
Definition all_completed : Collaborators unit :=
  scripted (Ok [show_a])
           (fun _ => Ok []) (fun _ => Ok []) (fun _ _ => Ok [])
           (fun _ => Ok true) (fun _ => Ok true) (fun _ => Ok tt).

(** The remote list service refuses the request. *)
Definition request_refused : Collaborators unit :=
  {| anilist_make_request := fun w => (Raise (Exception "429 Too Many Requests"), w);
     anilist_store_search := fun _ w => (Ok [show_b], w);
     plex_find_all_by_title := fun _ w => (Ok [], w);
     nyaa_search_for_missing_shows := fun _ _ w => (Ok [show_b_e05], w);
     nyaa_search_for_shows := fun _ _ _ w => (Ok [], w);
     nyaa_download_torrent_file := fun _ _ w => (Ok true, w);
     transmission_add_torrent_magnet := fun _ w => (Ok true, w);
     storage_copy_or_move_file := fun _ _ _ _ w => (Ok tt, w) |}.

(** A store whose write raises at the site [failing], and only there,
    before the record reaches the table. *)
Definition write_fails_at (failing : WriteSite) : StoreFaults unit :=
  {| search_fault := fun _ w => (None, w);
     save_fault := fun site _ w =>
       match site, failing with
       | AfterEnqueue, AfterEnqueue
       | AfterDownload, AfterDownload
       | AfterMove, AfterMove => (Some (Exception "database is locked", false), w)
       | _, _ => (None, w)
       end |}.

End Scenario.

(* ================================================================== *)
(** * Properties *)

Unset Implicit Arguments.

(* ------------------------------------------------------------------ *)
(** ** Reasoning about runs *)

Section TraceRel.

Variable W : Type.
Variable P : Event -> Prop.
Variable Q : AppStore.t -> AppStore.t -> Prop.
Hypothesis Q_refl : forall s, Q s s.
Hypothesis Q_trans : forall s1 s2 s3, Q s1 s2 -> Q s2 s3 -> Q s1 s3.

Local Abbreviation trace_rel := (@trace_rel W P Q).
Local Abbreviation respects := (@respects W _ P Q).

Lemma trace_rel_refl st : trace_rel st st.
Proof.
  split; [apply Q_refl|].
  exists []. rewrite app_nil_r. auto.
Qed.

Lemma trace_rel_trans st1 st2 st3 :
  trace_rel st1 st2 -> trace_rel st2 st3 -> trace_rel st1 st3.
Proof.
  intros [HQ1 [d1 [E1 F1]]] [HQ2 [d2 [E2 F2]]].
  split; [eapply Q_trans; eauto|].
  exists (d1 ++ d2)%list. split.
  - rewrite E2, E1, app_assoc. reflexivity.
  - apply Forall_app. auto.
Qed.

Lemma respects_ret {A : Type} (a : A) : respects (ret a).
Proof. intro st. apply trace_rel_refl. Qed.

Lemma respects_raise {A : Type} (e : PyException) : respects (@raise W A e).
Proof. intro st. apply trace_rel_refl. Qed.

Lemma respects_bind {A B : Type} (m : M W A) (k : A -> M W B) :
  respects m -> (forall a, respects (k a)) -> respects (bind m k).
Proof.
  intros Hm Hk st. unfold bind.
  specialize (Hm st). destruct (m st) as [[a|e] st1]; simpl in *.
  - eapply trace_rel_trans; [exact Hm | apply Hk].
  - exact Hm.
Qed.

(** The same, when what [m] returns is known to satisfy [post]. *)
Lemma respects_bind_post {A B : Type} (post : A -> Prop) (m : M W A) (k : A -> M W B) :
  respects m ->
  (forall st a st', m st = (Ok a, st') -> post a) ->
  (forall a, post a -> respects (k a)) ->
  respects (bind m k).
Proof.
  intros Hm Hpost Hk st. unfold bind.
  specialize (Hm st). specialize (Hpost st).
  destruct (m st) as [[a|e] st1]; simpl in *.
  - eapply trace_rel_trans; [exact Hm | apply Hk; eapply Hpost; reflexivity].
  - exact Hm.
Qed.

Lemma respects_try_except {A : Type} (body : M W A) (handler : PyException -> M W A) :
  respects body -> (forall e, respects (handler e)) -> respects (try_except body handler).
Proof.
  intros Hb Hh st. unfold try_except.
  specialize (Hb st). destruct (body st) as [[a|e] st1]; simpl in *.
  - exact Hb.
  - eapply trace_rel_trans; [exact Hb | apply Hh].
Qed.

Lemma respects_for_each {A : Type} (l : list A) (body : A -> M W unit) :
  (forall x, In x l -> respects (body x)) -> respects (for_each l body).
Proof.
  induction l as [|x rest IH]; intros Hb; simpl.
  - apply respects_ret.
  - apply respects_bind.
    + apply Hb. left. reflexivity.
    + intros _. apply IH. intros y Hy. apply Hb. right. exact Hy.
Qed.

Lemma respects_for_each_acc {A S : Type} (l : list A) (body : A -> S -> M W S) :
  (forall x s, In x l -> respects (body x s)) ->
  forall s, respects (for_each_acc l body s).
Proof.
  induction l as [|x rest IH]; intros Hb s; simpl.
  - apply respects_ret.
  - apply respects_bind.
    + apply Hb. left. reflexivity.
    + intros s'. apply IH. intros y s0 Hy. apply Hb. right. exact Hy.
Qed.

Lemma respects_emit (ev : Event) : P ev -> respects (emit ev).
Proof.
  intros Hev st. split; simpl; [apply Q_refl|].
  exists [ev]. auto.
Qed.

Lemma respects_log_info (m : LogMessage) : P (LogInfo m) -> respects (log_info m).
Proof. apply respects_emit. Qed.

Lemma respects_log_error (m : LogMessage) : P (LogError m) -> respects (log_error m).
Proof. apply respects_emit. Qed.

Lemma respects_call {A : Type} (ev : Event) (op : W -> Result A * W) :
  P ev -> respects (call ev op).
Proof.
  intros Hev st. unfold call. destruct (op (world st)) as [r w].
  split; simpl; [apply Q_refl|].
  exists [ev]. auto.
Qed.

Lemma respects_app_store_search (n : string) :
  P (StoreSearch n) -> respects (app_store_search n).
Proof.
  intros Hev st. split; simpl; [apply Q_refl|].
  exists [StoreSearch n]. auto.
Qed.

Lemma respects_app_store_save_or_update (model : AppStore.document) :
  P (StoreSaveOrUpdate model) ->
  (forall s, Q s (AppStore.save_or_update s model)) ->
  respects (app_store_save_or_update model).
Proof.
  intros Hev HQ st. split; simpl; [apply HQ|].
  exists [StoreSaveOrUpdate model]. auto.
Qed.

End TraceRel.

(** Loops over a concatenation run one part after the other. *)
Lemma for_each_app {W A : Type} (l1 l2 : list A) (body : A -> M W unit) (st : AppState W) :
  for_each (l1 ++ l2) body st =
  (for_each l1 body ;;; for_each l2 body) st.
Proof.
  revert st. induction l1 as [|x rest IH]; intros st; simpl.
  - reflexivity.
  - unfold bind. destruct (body x st) as [[[]|e] st1].
    + rewrite IH. reflexivity.
    + reflexivity.
Qed.

Lemma for_each_acc_app {W A S : Type}
  (l1 l2 : list A) (body : A -> S -> M W S) (s : S) (st : AppState W) :
  for_each_acc (l1 ++ l2) body s st =
  (s1 <- for_each_acc l1 body s ;; for_each_acc l2 body s1) st.
Proof.
  revert s st. induction l1 as [|x rest IH]; intros s st; simpl.
  - reflexivity.
  - unfold bind. destruct (body x s st) as [[s1|e] st1].
    + rewrite IH. reflexivity.
    + reflexivity.
Qed.

(* ------------------------------------------------------------------ *)
(** ** Facts about the store *)

Lemma filter_nonempty {A : Type} (f : A -> bool) (l : list A) :
  filter f l <> [] <-> exists x, In x l /\ f x = true.
Proof.
  split.
  - intros H. destruct (filter f l) as [|x r] eqn:E; [congruence|].
    exists x. apply filter_In. rewrite E. left. reflexivity.
  - intros [x Hx] E. apply filter_In in Hx. rewrite E in Hx. exact Hx.
Qed.

Lemma where_name_eq (n : string) (d : AppStore.document) :
  AppStore.where_name n d = true <-> TorrentInfo.name d = n.
Proof. unfold AppStore.where_name. apply String.eqb_eq. Qed.

(** After an upsert the record can be found under its name. *)
Lemma save_or_update_has_record (s : AppStore.t) (model : AppStore.document) :
  has_record (AppStore.save_or_update s model) (TorrentInfo.name model).
Proof.
  unfold has_record, AppStore.search, AppStore.save_or_update.
  apply filter_nonempty. exists model.
  split; [|apply where_name_eq; reflexivity].
  destruct (existsb _ s) eqn:E.
  - apply existsb_exists in E. destruct E as [d [Hd Hw]].
    apply in_map_iff. exists d. rewrite Hw. auto.
  - apply in_or_app. right. left. reflexivity.
Qed.

(** An upsert never makes a name disappear from the store. *)
Lemma save_or_update_keeps_record (s : AppStore.t) (model : AppStore.document) (n : string) :
  has_record s n -> has_record (AppStore.save_or_update s model) n.
Proof.
  unfold has_record, AppStore.search, AppStore.save_or_update.
  intros H. apply filter_nonempty in H. destruct H as [d [Hd Hw]].
  apply filter_nonempty.
  destruct (existsb _ s) eqn:E.
  - destruct (AppStore.where_name (TorrentInfo.name model) d) eqn:Hm.
    + exists model. split.
      * apply in_map_iff. exists d. rewrite Hm. auto.
      * apply where_name_eq in Hm. apply where_name_eq in Hw.
        apply where_name_eq. congruence.
    + exists d. split; [|exact Hw].
      apply in_map_iff. exists d. rewrite Hm. auto.
  - exists d. split; [|exact Hw]. apply in_or_app. left. exact Hd.
Qed.

Lemma has_record_length (s : AppStore.t) (n : string) :
  has_record s n -> Nat.ltb (length (AppStore.search s n)) 1 = false.
Proof.
  unfold has_record. destruct (AppStore.search s n); [congruence|reflexivity].
Qed.

Lemma no_record_length (s : AppStore.t) (n : string) :
  AppStore.search s n = [] -> Nat.ltb (length (AppStore.search s n)) 1 = true.
Proof. intros H. rewrite H. reflexivity. Qed.

(* ------------------------------------------------------------------ *)
(** ** The queue's emptiness test *)

Lemma contains_items_truthy (q : DownloadableQueue.t) :
  DownloadableQueue.truthy (DownloadableQueue.contains_items q) =
  negb (match DownloadableQueue.shows_found_in_plex q,
              DownloadableQueue.shows_missing_in_plex q,
              DownloadableQueue.show_media_entry_in_plex q with
        | [], [], [] => true
        | _, _, _ => false
        end).
Proof.
  destruct q as [[|s f] [|m ms] [|e es]]; reflexivity.
Qed.

(** C9. The value [contains_items] returns is true, as Python tests it,
    exactly when one of the three lists of the queue has an element, and
    false exactly when all three are empty; and in [start_application],
    once the list is fetched and the queue built, that test alone decides
    whether the search is run: on an empty queue the run is over in the
    state the reconciliation left, otherwise [search_nyaa_for_shows] runs
    next on the queue, followed by the decision on its results. *)
Theorem contains_items_gate :
  (forall q : DownloadableQueue.t,
      DownloadableQueue.truthy (DownloadableQueue.contains_items q) = true <->
      (DownloadableQueue.shows_found_in_plex q <> [] \/
       DownloadableQueue.shows_missing_in_plex q <> [] \/
       DownloadableQueue.show_media_entry_in_plex q <> [])) /\
  (forall q : DownloadableQueue.t,
      DownloadableQueue.truthy (DownloadableQueue.contains_items q) = false <->
      (DownloadableQueue.shows_found_in_plex q = [] /\
       DownloadableQueue.shows_missing_in_plex q = [] /\
       DownloadableQueue.show_media_entry_in_plex q = [])) /\
  (forall (W : Type) (C : Collaborators W) (list_name : option string)
          (config : AppConfig.t) (st st1 st2 : AppState W)
          (entry : MediaEntry.t) (entries : list MediaEntry.t)
          (q : DownloadableQueue.t),
      AppController.fetch_anime_list C list_name st = (Ok (entry :: entries), st1) ->
      AppController.find_plex_show C (entry :: entries) st1 = (Ok q, st2) ->
      AppController.start_application_try C list_name config st =
      if DownloadableQueue.truthy (DownloadableQueue.contains_items q)
      then (search_results <- AppController.search_nyaa_for_shows C config q ;;
            AppController.start_application_decide C config search_results) st2
      else (Ok tt, st2)).
Proof.
  split; [|split].
  - intros q. rewrite contains_items_truthy.
    destruct q as [[|s f] [|m ms] [|e es]]; simpl;
      split; intros H; try reflexivity; try discriminate;
      try (destruct H as [H|[H|H]]; congruence);
      try (left; discriminate);
      try (right; left; discriminate);
      try (right; right; discriminate).
  - intros q. rewrite contains_items_truthy.
    destruct q as [[|s f] [|m ms] [|e es]]; simpl;
      split; intros H; try reflexivity; try discriminate; auto;
      destruct H as [H1 [H2 H3]]; discriminate.
  - intros W C list_name config st st1 st2 entry entries q Hfetch Hfind.
    unfold AppController.start_application_try, bind at 1.
    rewrite Hfetch. unfold bind at 1. rewrite Hfind.
    destruct (DownloadableQueue.truthy _); reflexivity.
Qed.

Lemma contains_items_gate_witness :
  AppController.start_application_try Scenario.all_completed (Some "CURRENT")
    Scenario.config (Scenario.initial []) =
  (Ok tt,
   {| world := tt; app_store := [];
      events := [MakeRequest; AniListSearch (Some "CURRENT");
                 LogInfo (FetchedListOfShows 0 0)] |}).
Proof.
  exact (proj2 (proj2 contains_items_gate) unit Scenario.all_completed
           (Some "CURRENT") Scenario.config (Scenario.initial [])
           {| world := tt; app_store := [];
              events := [MakeRequest; AniListSearch (Some "CURRENT")] |}
           {| world := tt; app_store := [];
              events := [MakeRequest; AniListSearch (Some "CURRENT");
                         LogInfo (FetchedListOfShows 0 0)] |}
           Scenario.show_a [] (DownloadableQueue.mk [] [] [])
           eq_refl eq_refl).
Defined.

(* ------------------------------------------------------------------ *)
(** ** Reconciliation: the parallel lists *)

(** C2. The library returns two items for the single entry of the list:
    both items are added to the found list (the [+=] of a two-element
    list), the entry is appended once to the matched list, and the queue
    is returned with two found items against one matched entry.  With a
    second entry after it, the search phase, which walks the two lists
    in step, then searches the second item of Show C against the entry
    of Show B and never reaches the item of Show B. *)
Theorem find_plex_show_two_matches :
  let q := DownloadableQueue.mk
             [Scenario.plex_show_c; Scenario.plex_show_c_dub] [] [Scenario.show_c] in
  let q2 := DownloadableQueue.mk
              [Scenario.plex_show_c; Scenario.plex_show_c_dub; Scenario.plex_show_b] []
              [Scenario.show_c; Scenario.show_b] in
  fst (AppController.find_plex_show Scenario.two_matches [Scenario.show_c]
         (Scenario.initial [])) = Ok q /\
  length (DownloadableQueue.shows_found_in_plex q) = 2 /\
  length (DownloadableQueue.show_media_entry_in_plex q) = 1 /\
  fst (AppController.find_plex_show Scenario.two_matches_then_one
         [Scenario.show_c; Scenario.show_b] (Scenario.initial [])) = Ok q2 /\
  events (snd (AppController.search_nyaa_for_shows Scenario.two_matches_then_one
                 Scenario.config q2 (Scenario.initial []))) =
    [LogInfo SearchingForMissingItems;
     LogInfo SearchingForMatchingItems;
     SearchForShows Scenario.plex_show_c Scenario.show_c;
     LogInfo (NoNewReleasesFound Scenario.show_c);
     SearchForShows Scenario.plex_show_c_dub Scenario.show_b;
     LogInfo (NoNewReleasesFound Scenario.show_b)].
Proof. repeat split. Qed.

(* ------------------------------------------------------------------ *)
(** ** The enqueue step *)

Lemma queue_downloaded_torrent_file_run
  (W : Type) (C : Collaborators W) (torrent_info : TorrentInfo.t)
  (st : AppState W) (success : bool) (w : W)
  (Hcall : transmission_add_torrent_magnet C (TorrentInfo.download_url torrent_info)
             (world st) = (Ok success, w)) :
  let queued := TorrentInfo.set_is_queued torrent_info success in
  TorrentInfo.is_queued queued = success /\
  AppController.queue_downloaded_torrent_file C torrent_info st =
  (Ok (success, queued),
   {| world := w;
      app_store := if success
                   then AppStore.save_or_update (app_store st)
                          (AppStore.create_dictionary_class queued)
                   else app_store st;
      events := (events st ++ AddTorrentMagnet torrent_info ::
                   (if success
                    then [StoreSaveOrUpdate (AppStore.create_dictionary_class queued)]
                    else []))%list |}).
Proof.
  simpl. split; [reflexivity|].
  unfold AppController.queue_downloaded_torrent_file, bind, call.
  rewrite Hcall. destruct success; simpl.
  - rewrite <- app_assoc. reflexivity.
  - reflexivity.
Qed.

(** C10. Whatever boolean [add_torrent_magnet] returns, the method returns
    it, leaves the torrent with [is_queued] equal to it (so [False] is
    written on a refusal), and writes the store exactly when it is [True]:
    on [True] one upsert of the torrent's record follows the call, on
    [False] the store is as before and no upsert is recorded. *)
Theorem queue_downloaded_torrent_file_flag
  (W : Type) (C : Collaborators W) (torrent_info : TorrentInfo.t)
  (st : AppState W) (success : bool) (w : W)
  (Hcall : transmission_add_torrent_magnet C (TorrentInfo.download_url torrent_info)
             (world st) = (Ok success, w)) :
  let queued := TorrentInfo.set_is_queued torrent_info success in
  TorrentInfo.is_queued queued = success /\
  AppController.queue_downloaded_torrent_file C torrent_info st =
  (Ok (success, queued),
   {| world := w;
      app_store := if success
                   then AppStore.save_or_update (app_store st)
                          (AppStore.create_dictionary_class queued)
                   else app_store st;
      events := (events st ++ AddTorrentMagnet torrent_info ::
                   (if success
                    then [StoreSaveOrUpdate (AppStore.create_dictionary_class queued)]
                    else []))%list |}).
Proof.
  exact (queue_downloaded_torrent_file_run W C torrent_info st success w Hcall).
Qed.

Lemma queue_downloaded_torrent_file_flag_witness :
  AppController.queue_downloaded_torrent_file
    (Scenario.missing_show_b (Ok false) (Ok true) (Ok tt))
    Scenario.show_b_e05 (Scenario.initial []) =
  (Ok (false, TorrentInfo.set_is_queued Scenario.show_b_e05 false),
   {| world := tt; app_store := [];
      events := [AddTorrentMagnet Scenario.show_b_e05] |}).
Proof.
  apply (queue_downloaded_torrent_file_flag unit
           (Scenario.missing_show_b (Ok false) (Ok true) (Ok tt))
           Scenario.show_b_e05 (Scenario.initial []) false tt).
  reflexivity.
Defined.

(* ------------------------------------------------------------------ *)
(** ** The top-level boundary *)

(** C8. Whatever the statements inside the [try] of [start_application]
    do, the method returns normally: when they return, in the state they
    reached; when they raise an exception [e], at whatever stage, in the
    state reached at the raise with one more event, the error log line
    naming [e].  No exception leaves [start_application]. *)
Theorem start_application_absorbs
  (W : Type) (C : Collaborators W) (list_name : option string)
  (config : AppConfig.t) (st st1 : AppState W) (r : Result unit)
  (Htry : AppController.start_application_try C list_name config st = (r, st1)) :
  AppController.start_application C list_name config st =
  (Ok tt,
   match r with
   | Ok _ => st1
   | Raise e =>
       {| world := world st1;
          app_store := app_store st1;
          events := (events st1 ++ [LogError (UncaughtException e)])%list |}
   end).
Proof.
  unfold AppController.start_application, try_except. rewrite Htry.
  destruct r as [[]|e]; reflexivity.
Qed.

Lemma start_application_absorbs_witness :
  AppController.start_application Scenario.list_unreachable (Some "CURRENT")
    Scenario.config (Scenario.initial []) =
  (Ok tt,
   {| world := tt; app_store := [];
      events := [MakeRequest; AniListSearch (Some "CURRENT");
                 LogError (UncaughtException (Exception "connection refused"))] |}).
Proof.
  apply (start_application_absorbs unit Scenario.list_unreachable (Some "CURRENT")
           Scenario.config (Scenario.initial [])
           {| world := tt; app_store := [];
              events := [MakeRequest; AniListSearch (Some "CURRENT")] |}
           (Raise (Exception "connection refused"))).
  reflexivity.
Defined.

(* ------------------------------------------------------------------ *)
(** ** The fallback path: direct download, then the move *)

Lemma move_torrent_to_monitored_directory_run
  (W : Type) (C : Collaborators W) (config : AppConfig.t)
  (torrent_info : TorrentInfo.t) (info : AnimeInfo.t)
  (st : AppState W) (r : Result unit) (w : W) :
  TorrentInfo.anime_info torrent_info = Some info ->
  let filename := TorrentInfo.name torrent_info ++ ".torrent" in
  let directory_path := AppConfig.build_parent_save_path config (AnimeInfo.anime_title info) in
  let destination_path := AppConfig.torrent_monitor_directory config in
  let keep_file := AppConfig.torrent_keep_file_after_queuing config in
  storage_copy_or_move_file C filename directory_path destination_path keep_file
    (world st) = (r, w) ->
  AppController.move_torrent_to_monitored_directory C config torrent_info st =
  (Ok tt,
   {| world := w;
      app_store :=
        match r with
        | Ok _ => AppStore.save_or_update (app_store st)
                    (AppStore.create_dictionary_class torrent_info)
        | Raise _ => app_store st
        end;
      events :=
        (events st ++
         CopyOrMoveFile torrent_info filename directory_path destination_path keep_file ::
         match r with
         | Ok _ => [StoreSaveOrUpdate (AppStore.create_dictionary_class torrent_info)]
         | Raise e => [LogError (MoveFailed e)]
         end)%list |}).
Proof.
  intros Hinfo filename directory_path destination_path keep_file Hmove.
  unfold AppController.move_torrent_to_monitored_directory, try_except, bind,
    AppController.anime_info_anime_title, call, ret.
  rewrite Hinfo. simpl. fold filename directory_path destination_path keep_file.
  rewrite Hmove. unfold log_error, emit, app_store_save_or_update.
  destruct r as [[]|e]; simpl; rewrite <- app_assoc; reflexivity.
Qed.

Lemma download_torrent_file_run
  (W : Type) (C : Collaborators W) (config : AppConfig.t)
  (torrent_info : TorrentInfo.t) (info : AnimeInfo.t)
  (st : AppState W) (w1 w2 : W) (r : Result unit)
  (Hinfo : TorrentInfo.anime_info torrent_info = Some info)
  (Hdownload : nyaa_download_torrent_file C torrent_info config (world st) = (Ok true, w1))
  (Hmove : storage_copy_or_move_file C
             (TorrentInfo.name torrent_info ++ ".torrent")
             (AppConfig.build_parent_save_path config (AnimeInfo.anime_title info))
             (AppConfig.torrent_monitor_directory config)
             (AppConfig.torrent_keep_file_after_queuing config) w1 = (r, w2)) :
  let record := AppStore.create_dictionary_class torrent_info in
  let upserted := AppStore.save_or_update (app_store st) record in
  AppController.download_torrent_file C config torrent_info st =
  (Ok tt,
   {| world := w2;
      app_store :=
        match r with
        | Ok _ => AppStore.save_or_update upserted record
        | Raise _ => upserted
        end;
      events :=
        (events st ++
         [LogInfo (DownloadingTorrent (TorrentInfo.name torrent_info));
          DownloadTorrentFile torrent_info;
          StoreSaveOrUpdate record;
          LogInfo (DownloadSuccessful (TorrentInfo.anime_info torrent_info));
          CopyOrMoveFile torrent_info
            (TorrentInfo.name torrent_info ++ ".torrent")
            (AppConfig.build_parent_save_path config (AnimeInfo.anime_title info))
            (AppConfig.torrent_monitor_directory config)
            (AppConfig.torrent_keep_file_after_queuing config)] ++
         match r with
         | Ok _ => [StoreSaveOrUpdate record]
         | Raise e => [LogError (MoveFailed e)]
         end)%list |}).
Proof.
  intros record upserted.
  unfold AppController.download_torrent_file, bind, log_info, emit, call.
  simpl. rewrite Hdownload.
  erewrite move_torrent_to_monitored_directory_run by (simpl; eauto).
  subst record upserted. simpl.
  destruct r as [[]|e]; repeat rewrite <- app_assoc; reflexivity.
Qed.

(** C4, as the code has it.  When the direct download succeeds, the
    record is upserted at once, before the file is moved; the move comes
    after that upsert; and only when the move returns is the record
    upserted a second time, after the move.  When the move raises, the
    error is logged in place of the second upsert. *)
Theorem download_torrent_file_order
  (W : Type) (C : Collaborators W) (config : AppConfig.t)
  (torrent_info : TorrentInfo.t) (info : AnimeInfo.t)
  (st : AppState W) (w1 w2 : W) (r : Result unit)
  (Hinfo : TorrentInfo.anime_info torrent_info = Some info)
  (Hdownload : nyaa_download_torrent_file C torrent_info config (world st) = (Ok true, w1))
  (Hmove : storage_copy_or_move_file C
             (TorrentInfo.name torrent_info ++ ".torrent")
             (AppConfig.build_parent_save_path config (AnimeInfo.anime_title info))
             (AppConfig.torrent_monitor_directory config)
             (AppConfig.torrent_keep_file_after_queuing config) w1 = (r, w2)) :
  let record := AppStore.create_dictionary_class torrent_info in
  let upserted := AppStore.save_or_update (app_store st) record in
  AppController.download_torrent_file C config torrent_info st =
  (Ok tt,
   {| world := w2;
      app_store :=
        match r with
        | Ok _ => AppStore.save_or_update upserted record
        | Raise _ => upserted
        end;
      events :=
        (events st ++
         [LogInfo (DownloadingTorrent (TorrentInfo.name torrent_info));
          DownloadTorrentFile torrent_info;
          StoreSaveOrUpdate record;
          LogInfo (DownloadSuccessful (TorrentInfo.anime_info torrent_info));
          CopyOrMoveFile torrent_info
            (TorrentInfo.name torrent_info ++ ".torrent")
            (AppConfig.build_parent_save_path config (AnimeInfo.anime_title info))
            (AppConfig.torrent_monitor_directory config)
            (AppConfig.torrent_keep_file_after_queuing config)] ++
         match r with
         | Ok _ => [StoreSaveOrUpdate record]
         | Raise e => [LogError (MoveFailed e)]
         end)%list |}).
Proof.
  exact (download_torrent_file_run W C config torrent_info info st w1 w2 r
           Hinfo Hdownload Hmove).
Qed.

Lemma download_torrent_file_order_witness :
  AppController.download_torrent_file
    (Scenario.missing_show_b (Ok false) (Ok true) (Ok tt))
    Scenario.config Scenario.show_b_e05 (Scenario.initial []) =
  (Ok tt,
   {| world := tt;
      app_store := [Scenario.show_b_e05];
      events :=
        [LogInfo (DownloadingTorrent "Show.B.E05");
         DownloadTorrentFile Scenario.show_b_e05;
         StoreSaveOrUpdate Scenario.show_b_e05;
         LogInfo (DownloadSuccessful (Some (AnimeInfo.mk "Show B")));
         CopyOrMoveFile Scenario.show_b_e05
           "Show.B.E05.torrent" "/anime/Show B" "/watch" false;
         StoreSaveOrUpdate Scenario.show_b_e05] |}).
Proof.
  apply (download_torrent_file_order unit
           (Scenario.missing_show_b (Ok false) (Ok true) (Ok tt))
           Scenario.config Scenario.show_b_e05 (AnimeInfo.mk "Show B")
           (Scenario.initial []) tt tt (Ok tt));
    reflexivity.
Defined.

(** C4, as the claim has it, fails.  The direct download of Show.B.E05
    succeeds and the file is moved: the first upsert of its record stands
    in the trace before the move, so the record is not upserted only once
    the file has been moved.  And when the move raises, that upsert before
    the move is the only one: no upsert follows the move at all. *)
Lemma move_before_upsert_counterexample :
  let moved := AppController.download_torrent_file
                 (Scenario.missing_show_b (Ok false) (Ok true) (Ok tt))
                 Scenario.config Scenario.show_b_e05 (Scenario.initial []) in
  let failed := AppController.download_torrent_file
                  (Scenario.missing_show_b (Ok false) (Ok true)
                     (Raise (Exception "No space left on device")))
                  Scenario.config Scenario.show_b_e05 (Scenario.initial []) in
  events (snd moved) =
    [LogInfo (DownloadingTorrent "Show.B.E05");
     DownloadTorrentFile Scenario.show_b_e05;
     StoreSaveOrUpdate Scenario.show_b_e05;
     LogInfo (DownloadSuccessful (Some (AnimeInfo.mk "Show B")));
     CopyOrMoveFile Scenario.show_b_e05
       "Show.B.E05.torrent" "/anime/Show B" "/watch" false;
     StoreSaveOrUpdate Scenario.show_b_e05] /\
  upsert_only_after_move "Show.B.E05" false (events (snd moved)) <> true /\
  events (snd failed) =
    [LogInfo (DownloadingTorrent "Show.B.E05");
     DownloadTorrentFile Scenario.show_b_e05;
     StoreSaveOrUpdate Scenario.show_b_e05;
     LogInfo (DownloadSuccessful (Some (AnimeInfo.mk "Show B")));
     CopyOrMoveFile Scenario.show_b_e05
       "Show.B.E05.torrent" "/anime/Show B" "/watch" false;
     LogError (MoveFailed (Exception "No space left on device"))] /\
  upsert_only_after_move "Show.B.E05" false (events (snd failed)) <> true /\
  upsert_after_move "Show.B.E05" false (events (snd failed)) <> true.
Proof.
  simpl. repeat split; discriminate.
Qed.

(** C6. A candidate with no record in the store, whose magnet the client
    refuses, whose direct download succeeds and whose move raises [e]:
    its turn in the decision loop returns normally, the last thing it
    does is log the move's error, its name has a record in the store
    afterwards (the one upserted right after the download), and the loop
    goes on with the remaining candidates from there. *)
Theorem move_failure_keeps_record
  (W : Type) (C : Collaborators W) (config : AppConfig.t)
  (torrent_info : TorrentInfo.t) (info : AnimeInfo.t)
  (rest : list TorrentInfo.t)
  (st : AppState W) (w1 w2 w3 : W) (e : PyException)
  (Hinfo : TorrentInfo.anime_info torrent_info = Some info)
  (Hnew : AppStore.search (app_store st) (TorrentInfo.name torrent_info) = [])
  (Hmagnet : transmission_add_torrent_magnet C
               (TorrentInfo.download_url torrent_info) (world st) = (Ok false, w1))
  (Hdownload : nyaa_download_torrent_file C
                 (TorrentInfo.set_is_queued torrent_info false) config w1 = (Ok true, w2))
  (Hmove : storage_copy_or_move_file C
             (TorrentInfo.name torrent_info ++ ".torrent")
             (AppConfig.build_parent_save_path config (AnimeInfo.anime_title info))
             (AppConfig.torrent_monitor_directory config)
             (AppConfig.torrent_keep_file_after_queuing config) w2 = (Raise e, w3)) :
  let refused := TorrentInfo.set_is_queued torrent_info false in
  let st' :=
    {| world := w3;
       app_store := AppStore.save_or_update (app_store st)
                      (AppStore.create_dictionary_class refused);
       events :=
         (events st ++
          [StoreSearch (TorrentInfo.name torrent_info);
           AddTorrentMagnet torrent_info;
           LogInfo (DownloadingTorrent (TorrentInfo.name torrent_info));
           DownloadTorrentFile refused;
           StoreSaveOrUpdate (AppStore.create_dictionary_class refused);
           LogInfo (DownloadSuccessful (TorrentInfo.anime_info torrent_info));
           CopyOrMoveFile refused
             (TorrentInfo.name torrent_info ++ ".torrent")
             (AppConfig.build_parent_save_path config (AnimeInfo.anime_title info))
             (AppConfig.torrent_monitor_directory config)
             (AppConfig.torrent_keep_file_after_queuing config);
           LogError (MoveFailed e)])%list |} in
  AppController.start_application_body C config torrent_info st = (Ok tt, st') /\
  has_record (app_store st') (TorrentInfo.name torrent_info) /\
  for_each (torrent_info :: rest) (AppController.start_application_body C config) st =
  for_each rest (AppController.start_application_body C config) st'.
Proof.
  intros refused st'.
  assert (Hbody : AppController.start_application_body C config torrent_info st = (Ok tt, st')).
  { unfold AppController.start_application_body. rewrite Hinfo.
    unfold bind at 1.
    unfold AppController.find_downloadable_torrents, app_store_search.
    unfold AppController.start_application_guard.
    rewrite (no_record_length _ _ Hnew).
    unfold bind at 1.
    rewrite (proj2 (queue_downloaded_torrent_file_run W C torrent_info
                      {| world := world st; app_store := app_store st;
                         events := (events st ++
                                    [StoreSearch (TorrentInfo.name torrent_info)])%list |}
                      false w1 Hmagnet)).
    cbv beta iota. simpl negb. cbv iota.
    rewrite (download_torrent_file_run W C config refused info _ w2 w3 (Raise e));
      try assumption.
    subst st' refused. simpl. repeat rewrite <- app_assoc. reflexivity. }
  split; [exact Hbody|]. split.
  - apply (save_or_update_has_record (app_store st) refused).
  - simpl. unfold bind. rewrite Hbody. reflexivity.
Qed.

Lemma move_failure_keeps_record_witness :
  let C := Scenario.missing_show_b (Ok false) (Ok true)
             (Raise (Exception "No space left on device")) in
  AppController.start_application_body C Scenario.config Scenario.show_b_e05
    (Scenario.initial []) =
  (Ok tt,
   {| world := tt;
      app_store := [Scenario.show_b_e05];
      events :=
        [StoreSearch "Show.B.E05";
         AddTorrentMagnet Scenario.show_b_e05;
         LogInfo (DownloadingTorrent "Show.B.E05");
         DownloadTorrentFile Scenario.show_b_e05;
         StoreSaveOrUpdate Scenario.show_b_e05;
         LogInfo (DownloadSuccessful (Some (AnimeInfo.mk "Show B")));
         CopyOrMoveFile Scenario.show_b_e05
           "Show.B.E05.torrent" "/anime/Show B" "/watch" false;
         LogError (MoveFailed (Exception "No space left on device"))] |}) /\
  has_record [Scenario.show_b_e05] "Show.B.E05".
Proof.
  intros C.
  pose proof (move_failure_keeps_record unit C Scenario.config Scenario.show_b_e05
                (AnimeInfo.mk "Show B") [] (Scenario.initial []) tt tt tt
                (Exception "No space left on device")
                eq_refl eq_refl eq_refl eq_refl eq_refl) as H.
  destruct H as [Hbody [Hrec _]].
  split; [exact Hbody | exact Hrec].
Defined.

(* ------------------------------------------------------------------ *)
(** ** The search phase *)

Lemma search_missing_loop
  (W : Type) (C : Collaborators W) (config : AppConfig.t)
  (missing : list MediaEntry.t) :
  forall (acc : list TorrentInfo.t) (st : AppState W)
         (results : list TorrentInfo.t) (w : W),
    missing_search_results C config missing (world st) = (Ok results, w) ->
    exists st',
      for_each_acc missing (AppController.search_missing_body C config) acc st =
      (Ok (acc ++ results)%list, st') /\
      world st' = w /\ app_store st' = app_store st.
Proof.
  induction missing as [|media rest IH]; intros acc st results w H; simpl in *.
  - inversion H; subst. exists st. rewrite app_nil_r. auto.
  - destruct (nyaa_search_for_missing_shows C media config (world st))
      as [[r|e] w1] eqn:Hcall; [|discriminate].
    destruct (missing_search_results C config rest w1) as [[more|e] w2] eqn:Hrest;
      [|discriminate].
    inversion H; subst; clear H.
    unfold bind at 1, AppController.search_missing_body at 1, bind at 1, call.
    rewrite Hcall.
    destruct r as [|t r]; simpl.
    + unfold bind, log_info, emit. simpl.
      match goal with
      | |- context [for_each_acc rest _ acc ?s] =>
          destruct (IH acc s more w Hrest) as [st' [Hrun [Hw Hs]]]
      end.
      exists st'. rewrite Hrun. auto.
    + match goal with
      | |- context [for_each_acc rest _ ?a ?s] =>
          destruct (IH a s more w Hrest) as [st' [Hrun [Hw Hs]]]
      end.
      exists st'. rewrite Hrun. rewrite <- app_assoc. auto.
Qed.

Lemma search_found_loop
  (W : Type) (C : Collaborators W) (config : AppConfig.t)
  (pairs : list (Show.t * MediaEntry.t)) :
  forall (acc : list TorrentInfo.t) (st : AppState W)
         (results : list TorrentInfo.t) (w : W),
    found_search_results C config pairs (world st) = (Ok results, w) ->
    exists st',
      for_each_acc pairs (AppController.search_found_body C config) acc st =
      (Ok (acc ++ results)%list, st') /\
      world st' = w /\ app_store st' = app_store st.
Proof.
  induction pairs as [|[show media] rest IH]; intros acc st results w H; simpl in *.
  - inversion H; subst. exists st. rewrite app_nil_r. auto.
  - destruct (nyaa_search_for_shows C show media config (world st))
      as [[r|e] w1] eqn:Hcall; [|discriminate].
    destruct (found_search_results C config rest w1) as [[more|e] w2] eqn:Hrest;
      [|discriminate].
    inversion H; subst; clear H.
    unfold bind at 1, bind at 1, call.
    rewrite Hcall.
    destruct r as [|t r]; simpl.
    + unfold bind, log_info, emit. simpl.
      match goal with
      | |- context [for_each_acc rest _ acc ?s] =>
          destruct (IH acc s more w Hrest) as [st' [Hrun [Hw Hs]]]
      end.
      exists st'. rewrite Hrun. auto.
    + match goal with
      | |- context [for_each_acc rest _ ?a ?s] =>
          destruct (IH a s more w Hrest) as [st' [Hrun [Hw Hs]]]
      end.
      exists st'. rewrite Hrun. rewrite <- app_assoc. auto.
Qed.

(** C5, as the code has it.  The missing searches are issued first and
    the found searches after them, each group in list order; the list
    returned is the found-search results followed by the missing-search
    results, each group in the order its searches were issued. *)
Theorem search_nyaa_for_shows_order
  (W : Type) (C : Collaborators W) (config : AppConfig.t)
  (download_queue : DownloadableQueue.t) (st : AppState W)
  (missing_results found_results : list TorrentInfo.t) (w1 w2 : W)
  (Hmissing : missing_search_results C config
                (DownloadableQueue.shows_missing_in_plex download_queue)
                (world st) = (Ok missing_results, w1))
  (Hfound : found_search_results C config
              (combine (DownloadableQueue.shows_found_in_plex download_queue)
                       (DownloadableQueue.show_media_entry_in_plex download_queue))
              w1 = (Ok found_results, w2)) :
  exists st',
    AppController.search_nyaa_for_shows C config download_queue st =
    (Ok (found_results ++ missing_results)%list, st') /\
    world st' = w2 /\ app_store st' = app_store st.
Proof.
  unfold AppController.search_nyaa_for_shows.
  unfold bind at 1, log_info at 1, emit at 1.
  match goal with
  | |- context [bind (for_each_acc _ _ []) _ ?s] =>
      destruct (search_missing_loop W C config _ [] s missing_results w1 Hmissing)
        as [st1 [Hrun1 [Hw1 Hs1]]]
  end.
  unfold bind at 1. rewrite Hrun1.
  unfold bind at 1, log_info at 1, emit at 1.
  rewrite <- Hw1 in Hfound.
  match goal with
  | |- context [bind (for_each_acc _ _ []) _ ?s] =>
      destruct (search_found_loop W C config _ [] s found_results w2 Hfound)
        as [st2 [Hrun2 [Hw2 Hs2]]]
  end.
  unfold bind at 1. rewrite Hrun2.
  exists st2. simpl in *. unfold ret. split; [reflexivity|].
  split; [exact Hw2|]. rewrite Hs2, Hs1. reflexivity.
Qed.

Lemma search_nyaa_for_shows_order_witness :
  exists st',
    AppController.search_nyaa_for_shows Scenario.mixed_library Scenario.config
      Scenario.mixed_queue (Scenario.initial []) =
    (Ok [Scenario.show_c_e07; Scenario.show_b_e05], st') /\
    world st' = tt /\ app_store st' = [].
Proof.
  apply (search_nyaa_for_shows_order unit Scenario.mixed_library Scenario.config
           Scenario.mixed_queue (Scenario.initial [])
           [Scenario.show_b_e05] [Scenario.show_c_e07] tt tt);
    reflexivity.
Defined.

(** C5, as the claim has it, fails: with one missing entry whose search
    finds Show.B.E05 and one library item whose search finds Show.C.E07,
    the list returned starts with the found-search result, so it is not
    the missing-search results followed by the found-search results. *)
Lemma missing_results_first_counterexample :
  let missing_results := [Scenario.show_b_e05] in
  let found_results := [Scenario.show_c_e07] in
  fst (missing_search_results Scenario.mixed_library Scenario.config
         (DownloadableQueue.shows_missing_in_plex Scenario.mixed_queue) tt)
    = Ok missing_results /\
  fst (found_search_results Scenario.mixed_library Scenario.config
         (combine (DownloadableQueue.shows_found_in_plex Scenario.mixed_queue)
                  (DownloadableQueue.show_media_entry_in_plex Scenario.mixed_queue)) tt)
    = Ok found_results /\
  fst (AppController.search_nyaa_for_shows Scenario.mixed_library Scenario.config
         Scenario.mixed_queue (Scenario.initial []))
    <> Ok (missing_results ++ found_results)%list.
Proof.
  simpl. repeat split. discriminate.
Qed.

(* ------------------------------------------------------------------ *)
(** ** Reconciliation: entries that are skipped *)

(** An invariant of the local variables carries through a loop that
    returns. *)
Lemma for_each_acc_invariant {W A S : Type} (I : S -> Prop)
  (body : A -> S -> M W S) (l : list A) :
  (forall x s st s' st', In x l -> I s -> body x s st = (Ok s', st') -> I s') ->
  forall s st s' st',
    I s -> for_each_acc l body s st = (Ok s', st') -> I s'.
Proof.
  induction l as [|x rest IH]; intros Hbody s st s' st' Hs Hrun; simpl in Hrun.
  - inversion Hrun; subst. exact Hs.
  - unfold bind in Hrun.
    destruct (body x s st) as [[s1|e] st1] eqn:Hx; [|discriminate].
    eapply IH; [| |exact Hrun].
    + intros y s0 st0 s0' st0' Hy. apply Hbody. right. exact Hy.
    + eapply Hbody; [left; reflexivity|exact Hs|exact Hx].
Qed.

Lemma find_plex_show_body_skip
  (W : Type) (C : Collaborators W) (entry : MediaEntry.t)
  (locals : AppController.find_plex_show_locals) (st : AppState W) :
  Media.status (MediaEntry.media entry) = "NOT_YET_RELEASED" \/
  MediaEntry.status entry = "COMPLETED" ->
  AppController.find_plex_show_body C entry locals st = (Ok locals, st).
Proof.
  intros [H|H]; unfold AppController.find_plex_show_body.
  - rewrite H. reflexivity.
  - rewrite H. simpl.
    destruct (negb _); reflexivity.
Qed.

Lemma looked_up_dec (entry : MediaEntry.t) :
  looked_up entry \/
  (Media.status (MediaEntry.media entry) = "NOT_YET_RELEASED" \/
   MediaEntry.status entry = "COMPLETED").
Proof.
  unfold looked_up.
  destruct (String.eqb_spec (Media.status (MediaEntry.media entry)) "NOT_YET_RELEASED");
    destruct (String.eqb_spec (MediaEntry.status entry) "COMPLETED"); auto.
Qed.

(** Every library query of the reconciliation is for an entry that passed
    both tests. *)
Lemma find_plex_show_queries
  (W : Type) (C : Collaborators W) (entries : list MediaEntry.t) :
  respects (fun ev => forall e, ev = FindAllByTitle e -> looked_up e)
           (fun _ _ => True)
           (AppController.find_plex_show C entries).
Proof.
  unfold AppController.find_plex_show.
  apply respects_bind; auto.
  - apply respects_for_each_acc; auto.
    intros x s _.
    destruct (looked_up_dec x) as [Hx|Hx].
    + unfold AppController.find_plex_show_body.
      destruct (negb _); [|apply respects_ret; auto].
      destruct (negb _); [|apply respects_ret; auto].
      apply respects_bind; auto.
      * apply respects_call; auto. intros e He. inversion He; subst. exact Hx.
      * intros [|sh shs]; apply respects_ret; auto.
    + intros st. rewrite find_plex_show_body_skip by exact Hx.
      apply trace_rel_refl. auto.
  - intros locals. apply respects_bind; auto.
    + apply respects_log_info; auto. intros; discriminate.
    + intros _. apply respects_ret; auto.
Qed.

(** Only entries that passed both tests reach the missing and matched
    lists. *)
Lemma find_plex_show_lists
  (W : Type) (C : Collaborators W) (entries : list MediaEntry.t)
  (st st' : AppState W) (q : DownloadableQueue.t) :
  AppController.find_plex_show C entries st = (Ok q, st') ->
  Forall looked_up (DownloadableQueue.shows_missing_in_plex q) /\
  Forall looked_up (DownloadableQueue.show_media_entry_in_plex q).
Proof.
  unfold AppController.find_plex_show, bind at 1.
  destruct (for_each_acc entries _ _ st) as [[locals|e] st1] eqn:Hloop;
    [|discriminate].
  unfold bind, log_info, emit, ret. intros H. inversion H; subst; clear H. simpl.
  pose (I := fun s : AppController.find_plex_show_locals =>
               Forall looked_up (AppController.shows_missing_in_plex_found_on_users_list s) /\
               Forall looked_up (AppController.show_media_entry_mapped_to_plex s)).
  change (I locals).
  eapply (for_each_acc_invariant I); [| |exact Hloop].
  - intros x s st0 s' st0' _ [Hm Hf] Hbody.
    assert (Hx : AppController.find_plex_show_body C x s st0 = (Ok s, st0) \/ looked_up x).
    { destruct (looked_up_dec x) as [Hx|Hx]; [right; exact Hx|].
      left. apply find_plex_show_body_skip. exact Hx. }
    destruct Hx as [Hx|Hx].
    + rewrite Hx in Hbody. inversion Hbody; subst. split; assumption.
    + unfold AppController.find_plex_show_body in Hbody.
      destruct (negb _); [|inversion Hbody; subst; split; assumption].
      destruct (negb _); [|inversion Hbody; subst; split; assumption].
      unfold bind, call in Hbody.
      destruct (plex_find_all_by_title C x (world st0)) as [[show|e] w];
        [|discriminate].
      destruct show as [|sh shs]; inversion Hbody; subst; clear Hbody;
        unfold I; simpl; split; auto;
        unfold AppController.add_missing_item;
        apply Forall_app; auto.
  - unfold I. simpl. auto.
Qed.

(** C7. An entry whose release status is NOT_YET_RELEASED, or whose
    personal status is COMPLETED, leaves no trace in the reconciliation:
    the run over a list that holds it is, result and state alike, the run
    over the list without it (so nothing in the found list, nor anywhere
    else, comes from it); no library query is made for it; and it is in
    neither the missing nor the matched list of the queue returned. *)
Theorem find_plex_show_skips
  (W : Type) (C : Collaborators W) (entry : MediaEntry.t)
  (Hskip : Media.status (MediaEntry.media entry) = "NOT_YET_RELEASED" \/
           MediaEntry.status entry = "COMPLETED") :
  (forall (before after : list MediaEntry.t) (st : AppState W),
      AppController.find_plex_show C (before ++ entry :: after) st =
      AppController.find_plex_show C (before ++ after) st) /\
  (forall (entries : list MediaEntry.t) (st : AppState W),
      exists d,
        events (snd (AppController.find_plex_show C entries st)) = (events st ++ d)%list /\
        ~ In (FindAllByTitle entry) d) /\
  (forall (entries : list MediaEntry.t) (st st' : AppState W) (q : DownloadableQueue.t),
      AppController.find_plex_show C entries st = (Ok q, st') ->
      ~ In entry (DownloadableQueue.shows_missing_in_plex q) /\
      ~ In entry (DownloadableQueue.show_media_entry_in_plex q)).
Proof.
  assert (Hnot : ~ looked_up entry).
  { intros [H1 H2]. destruct Hskip; contradiction. }
  split; [|split].
  - intros before after st. unfold AppController.find_plex_show.
    unfold bind at 1 3.
    rewrite (for_each_acc_app before (entry :: after)).
    rewrite (for_each_acc_app before after).
    unfold bind at 1 3.
    destruct (for_each_acc before _ _ st) as [[locals|e] st1]; [|reflexivity].
    simpl. unfold bind at 1.
    rewrite find_plex_show_body_skip by exact Hskip.
    reflexivity.
  - intros entries st.
    destruct (find_plex_show_queries W C entries st) as [_ [d [Hd HP]]].
    exists d. split; [exact Hd|].
    intros Hin. rewrite Forall_forall in HP.
    apply Hnot. exact (HP _ Hin entry eq_refl).
  - intros entries st st' q Hrun.
    destruct (find_plex_show_lists W C entries st st' q Hrun) as [Hm Hf].
    rewrite Forall_forall in Hm, Hf.
    split; intros Hin; apply Hnot; auto.
Qed.

Lemma find_plex_show_skips_witness :
  AppController.find_plex_show Scenario.mixed_library
    ([Scenario.show_b] ++ Scenario.show_d :: [Scenario.show_c]) (Scenario.initial []) =
  AppController.find_plex_show Scenario.mixed_library
    ([Scenario.show_b] ++ [Scenario.show_c]) (Scenario.initial []).
Proof.
  apply (find_plex_show_skips unit Scenario.mixed_library Scenario.show_d
           (or_introl eq_refl)).
Defined.

(* ------------------------------------------------------------------ *)
(** ** What a candidate's turn in the decision loop may touch *)

Section Turn.

Variable W : Type.
Variable C : Collaborators W.
Variable config : AppConfig.t.
Variable P : Event -> Prop.
Variable Q : AppStore.t -> AppStore.t -> Prop.
Variable n : string.
Hypothesis Q_refl : forall s, Q s s.
Hypothesis Q_trans : forall s1 s2 s3, Q s1 s2 -> Q s2 s3 -> Q s1 s3.
Hypothesis P_concerns : forall ev, concerns n ev -> P ev.
Hypothesis Q_upsert :
  forall s model, TorrentInfo.name model = n -> Q s (AppStore.save_or_update s model).

Ltac event_ok := try (apply P_concerns; unfold concerns; simpl; auto).

Lemma move_torrent_to_monitored_directory_respects (torrent_info : TorrentInfo.t) :
  TorrentInfo.name torrent_info = n ->
  respects P Q (AppController.move_torrent_to_monitored_directory C config torrent_info).
Proof.
  intros Hn. unfold AppController.move_torrent_to_monitored_directory.
  apply respects_try_except; auto.
  - apply respects_bind; auto.
    + unfold AppController.anime_info_anime_title.
      destruct (TorrentInfo.anime_info torrent_info).
      * apply respects_ret; auto.
      * apply respects_raise; auto.
    + intros anime_title. apply respects_bind; auto.
      * apply respects_call; auto; event_ok.
      * intros _. apply respects_app_store_save_or_update; auto; event_ok.
  - intros e. apply respects_log_error; auto; event_ok.
Qed.

Lemma download_torrent_file_respects (torrent_info : TorrentInfo.t) :
  TorrentInfo.name torrent_info = n ->
  respects P Q (AppController.download_torrent_file C config torrent_info).
Proof.
  intros Hn. unfold AppController.download_torrent_file.
  apply respects_bind; auto.
  - apply respects_log_info; auto; event_ok.
  - intros _. apply respects_bind; auto.
    + apply respects_call; auto; event_ok.
    + intros [|].
      * apply respects_bind; auto.
        -- apply respects_app_store_save_or_update; auto; event_ok.
        -- intros _. apply respects_bind; auto.
           ++ apply respects_log_info; auto; event_ok.
           ++ intros _. apply move_torrent_to_monitored_directory_respects. exact Hn.
      * apply respects_log_info; auto; event_ok.
Qed.

Lemma queue_downloaded_torrent_file_respects (torrent_info : TorrentInfo.t) :
  TorrentInfo.name torrent_info = n ->
  respects P Q (AppController.queue_downloaded_torrent_file C torrent_info).
Proof.
  intros Hn. unfold AppController.queue_downloaded_torrent_file.
  apply respects_bind; auto.
  - apply respects_call; auto; event_ok.
  - intros success. apply respects_bind; auto.
    + destruct success.
      * apply respects_app_store_save_or_update; auto; event_ok.
      * apply respects_ret; auto.
    + intros _. apply respects_ret; auto.
Qed.

Lemma queue_downloaded_torrent_file_name
  (torrent_info : TorrentInfo.t) (st st' : AppState W) (r : bool * TorrentInfo.t) :
  AppController.queue_downloaded_torrent_file C torrent_info st = (Ok r, st') ->
  TorrentInfo.name (snd r) = TorrentInfo.name torrent_info.
Proof.
  unfold AppController.queue_downloaded_torrent_file, bind, call.
  destruct (transmission_add_torrent_magnet C _ (world st)) as [[success|e] w];
    [|discriminate].
  destruct success; simpl; intros H; inversion H; reflexivity.
Qed.

Lemma start_application_guard_respects
  (torrent_info : TorrentInfo.t) (downloaded_torrent : list AppStore.document) :
  TorrentInfo.name torrent_info = n ->
  respects P Q (AppController.start_application_guard C config torrent_info
                  downloaded_torrent).
Proof.
  intros Hn. unfold AppController.start_application_guard.
  destruct (Nat.ltb _ 1).
  - apply respects_bind_post
      with (post := fun r : bool * TorrentInfo.t => TorrentInfo.name (snd r) = n);
      auto.
    + apply queue_downloaded_torrent_file_respects. exact Hn.
    + intros st r st' Hrun.
      rewrite (queue_downloaded_torrent_file_name _ _ _ _ Hrun). exact Hn.
    + intros [queued queued_info] Hname.
      destruct queued; simpl.
      * apply respects_ret; auto.
      * apply download_torrent_file_respects. exact Hname.
  - apply respects_log_info; auto; event_ok.
Qed.

Lemma start_application_body_respects (torrent_info : TorrentInfo.t) :
  TorrentInfo.name torrent_info = n ->
  respects P Q (AppController.start_application_body C config torrent_info).
Proof.
  intros Hn. unfold AppController.start_application_body.
  destruct (TorrentInfo.anime_info torrent_info).
  - apply respects_bind; auto.
    + apply respects_app_store_search; auto; event_ok.
    + intros downloaded_torrent. apply start_application_guard_respects. exact Hn.
  - apply respects_log_info; auto; event_ok.
Qed.

End Turn.

(* ------------------------------------------------------------------ *)
(** ** The dedup guard *)

Lemma start_application_body_skip
  (W : Type) (C : Collaborators W) (config : AppConfig.t)
  (torrent_info : TorrentInfo.t) (st : AppState W) :
  has_record (app_store st) (TorrentInfo.name torrent_info) ->
  AppController.start_application_body C config torrent_info st =
  (Ok tt,
   {| world := world st;
      app_store := app_store st;
      events :=
        (events st ++
         match TorrentInfo.anime_info torrent_info with
         | None => [LogInfo (SkippingTorrentWithoutAnimeInfo torrent_info)]
         | Some _ =>
             [StoreSearch (TorrentInfo.name torrent_info);
              LogInfo (SkippingExistingDownload (TorrentInfo.anime_info torrent_info))]
         end)%list |}).
Proof.
  intros Hrec. unfold AppController.start_application_body.
  destruct (TorrentInfo.anime_info torrent_info) as [info|] eqn:Hinfo.
  - unfold bind, AppController.find_downloadable_torrents, app_store_search,
      AppController.start_application_guard.
    simpl. rewrite (has_record_length _ _ Hrec).
    unfold log_info, emit. simpl. rewrite <- app_assoc, Hinfo. reflexivity.
  - reflexivity.
Qed.

(** A turn starts with the candidate's mark: the lookup under its name,
    or, for a candidate without [anime_info], the log line that is all
    that turn does. *)
Lemma start_application_body_lookup_first
  (W : Type) (C : Collaborators W) (config : AppConfig.t)
  (torrent_info : TorrentInfo.t) (st : AppState W) :
  exists d,
    events (snd (AppController.start_application_body C config torrent_info st)) =
    (events st ++ visit_mark torrent_info :: d)%list /\
    (TorrentInfo.anime_info torrent_info = None -> d = []).
Proof.
  unfold AppController.start_application_body, visit_mark.
  destruct (TorrentInfo.anime_info torrent_info) as [info|].
  - unfold bind at 1, AppController.find_downloadable_torrents, app_store_search.
    match goal with
    | |- context [AppController.start_application_guard C config torrent_info ?dl ?s] =>
        destruct (start_application_guard_respects W C config
                    (fun _ => True) (fun _ _ => True) (TorrentInfo.name torrent_info)
                    (fun _ => I) (fun _ _ _ _ _ => I) (fun _ _ => I) (fun _ _ _ => I)
                    torrent_info dl eq_refl s) as [_ [d [Hd _]]]
    end.
    exists d. rewrite Hd. simpl. rewrite <- app_assoc. split; [reflexivity|discriminate].
  - exists []. split; reflexivity.
Qed.

Lemma start_application_body_dedup
  (W : Type) (C : Collaborators W) (config : AppConfig.t) (X : string)
  (torrent_info : TorrentInfo.t) (st : AppState W) :
  has_record (app_store st) X ->
  trace_rel (fun ev => mutation_for ev <> Some X)
            (fun s s' => has_record s X -> has_record s' X)
            st (snd (AppController.start_application_body C config torrent_info st)).
Proof.
  intros Hrec.
  destruct (String.eqb_spec (TorrentInfo.name torrent_info) X) as [E|E].
  - subst X. rewrite start_application_body_skip by exact Hrec.
    split; simpl; [auto|].
    eexists. split; [reflexivity|].
    destruct (TorrentInfo.anime_info torrent_info);
      repeat constructor; discriminate.
  - apply start_application_body_respects with (n := TorrentInfo.name torrent_info);
      auto.
    + intros ev Hev Hmut. unfold concerns in Hev. rewrite Hmut in Hev. congruence.
    + intros s model _. apply save_or_update_keeps_record.
Qed.

Lemma decision_loop_dedup
  (W : Type) (C : Collaborators W) (config : AppConfig.t) (X : string)
  (search_results : list TorrentInfo.t) :
  forall st : AppState W,
    has_record (app_store st) X ->
    trace_rel (fun ev => mutation_for ev <> Some X)
              (fun s s' => has_record s X -> has_record s' X)
              st (snd (for_each search_results
                         (AppController.start_application_body C config) st)).
Proof.
  induction search_results as [|torrent_info rest IH]; intros st Hrec; simpl.
  - apply trace_rel_refl. auto.
  - pose proof (start_application_body_dedup W C config X torrent_info st Hrec) as Hturn.
    unfold bind.
    destruct (AppController.start_application_body C config torrent_info st)
      as [[[]|e] st1]; simpl in *.
    + eapply trace_rel_trans; [|exact Hturn|apply IH]; auto.
      destruct Hturn as [HQ _]. auto.
    + exact Hturn.
Qed.

(** C1. Let the store hold a record under the name [X].  (1) The turn of
    a candidate named [X] returns normally having done nothing but the
    lookup and the log line that skips it (or, for a candidate without
    [anime_info], the log line alone): the world of the collaborators and
    the store are as before.  (2) Over any list of search results, run
    from that store, whatever the other candidates do and however the loop
    ends, no client call, no direct download, no file move and no upsert
    is made for a candidate named [X], and [X] still has its record at the
    end.  (3) In any state, a candidate's turn adds its events after its
    mark: the lookup comes before every other call made for it, and a
    candidate without [anime_info] gets no call at all. *)
Theorem dedup_guard
  (W : Type) (C : Collaborators W) (config : AppConfig.t) (X : string) :
  (forall (torrent_info : TorrentInfo.t) (st : AppState W),
      TorrentInfo.name torrent_info = X ->
      has_record (app_store st) X ->
      AppController.start_application_body C config torrent_info st =
      (Ok tt,
       {| world := world st;
          app_store := app_store st;
          events :=
            (events st ++
             match TorrentInfo.anime_info torrent_info with
             | None => [LogInfo (SkippingTorrentWithoutAnimeInfo torrent_info)]
             | Some _ =>
                 [StoreSearch X;
                  LogInfo (SkippingExistingDownload (TorrentInfo.anime_info torrent_info))]
             end)%list |})) /\
  (forall (search_results : list TorrentInfo.t) (st : AppState W),
      has_record (app_store st) X ->
      let st' := snd (for_each search_results
                        (AppController.start_application_body C config) st) in
      has_record (app_store st') X /\
      exists d,
        events st' = (events st ++ d)%list /\
        Forall (fun ev => mutation_for ev <> Some X) d) /\
  (forall (torrent_info : TorrentInfo.t) (st : AppState W),
      exists d,
        events (snd (AppController.start_application_body C config torrent_info st)) =
        (events st ++ visit_mark torrent_info :: d)%list /\
        (TorrentInfo.anime_info torrent_info = None -> d = [])).
Proof.
  split; [|split].
  - intros torrent_info st Hname Hrec. subst X.
    apply start_application_body_skip. exact Hrec.
  - intros search_results st Hrec st'.
    destruct (decision_loop_dedup W C config X search_results st Hrec) as [HQ Hd].
    split; [apply HQ; exact Hrec | exact Hd].
  - intros torrent_info st. apply start_application_body_lookup_first.
Qed.

Lemma dedup_guard_witness :
  AppController.start_application_body Scenario.mixed_library Scenario.config
    Scenario.show_b_e05 (Scenario.initial [Scenario.show_b_e05]) =
  (Ok tt,
   {| world := tt;
      app_store := [Scenario.show_b_e05];
      events :=
        [StoreSearch "Show.B.E05";
         LogInfo (SkippingExistingDownload (Some (AnimeInfo.mk "Show B")))] |}).
Proof.
  apply (proj1 (dedup_guard unit Scenario.mixed_library Scenario.config "Show.B.E05")
           Scenario.show_b_e05 (Scenario.initial [Scenario.show_b_e05]) eq_refl).
  unfold has_record. simpl. discriminate.
Defined.

(* ------------------------------------------------------------------ *)
(** ** Failures inside the decision loop *)

(** Over a store that never raises, the turn is the one of [AppController]. *)
Lemma turn_over_never_fails
  (W : Type) (C : Collaborators W) (config : AppConfig.t)
  (torrent_info : TorrentInfo.t) :
  turn_over C config store_never_fails torrent_info =
  AppController.start_application_body C config torrent_info.
Proof. reflexivity. Qed.

Ltac unfold_turn :=
  unfold turn_over, AppControllerOver.start_application_body,
    AppControllerOver.find_downloadable_torrents,
    AppControllerOver.start_application_guard,
    AppControllerOver.queue_downloaded_torrent_file,
    AppControllerOver.download_torrent_file,
    AppControllerOver.move_torrent_to_monitored_directory,
    AppController.anime_info_anime_title,
    store_search_or_raise, store_save_or_raise,
    try_except, bind, call, log_info, log_error, emit, ret, raise,
    AppStore.create_dictionary_class.

Section Returns.

Variable W : Type.
Variable C : Collaborators W.
Variable config : AppConfig.t.
Variable F : StoreFaults W.

(** The calls of a turn that no [try] of the loop encloses return: the
    lookup, the enqueue, the direct download, and the writes made after
    an accepted magnet and after a successful download.  Nothing is
    asked of the file mover nor of the write after the move. *)
Hypothesis search_returns :
  forall n w, exists w', search_fault F n w = (None, w').
Hypothesis magnet_answers :
  forall filename w, exists success w',
    transmission_add_torrent_magnet C filename w = (Ok success, w').
Hypothesis download_answers :
  forall torrent_info w, exists success w',
    nyaa_download_torrent_file C torrent_info config w = (Ok success, w').
Hypothesis save_returns :
  forall site model w,
    site <> AfterMove -> exists w', save_fault F site model w = (None, w').




End Returns.




(* ------------------------------------------------------------------ *)
(** ** Reconciliation: the queue as a function of the library's answers *)

Lemma is_looked_up_body
  (W : Type) (C : Collaborators W) (entry : MediaEntry.t)
  (locals : AppController.find_plex_show_locals) (st : AppState W) :
  is_looked_up entry = false ->
  AppController.find_plex_show_body C entry locals st = (Ok locals, st).
Proof.
  unfold is_looked_up, AppController.find_plex_show_body.
  destruct (negb (String.eqb (Media.status _) _)); simpl.
  - intros H. rewrite H. reflexivity.
  - reflexivity.
Qed.

Lemma find_plex_show_loop_answers
  (W : Type) (C : Collaborators W) (entries : list MediaEntry.t) :
  forall (locals : AppController.find_plex_show_locals) (st : AppState W)
         (r : Result (list (MediaEntry.t * list Show.t))) (w : W),
    library_answers C entries (world st) = (r, w) ->
    exists st',
      world st' = w /\ app_store st' = app_store st /\
      for_each_acc entries (AppController.find_plex_show_body C) locals st =
      (match r with
       | Ok answers =>
           Ok {| AppController.shows_in_plex_matching_users_list :=
                   (AppController.shows_in_plex_matching_users_list locals
                    ++ concat (map snd answers))%list;
                 AppController.show_media_entry_mapped_to_plex :=
                   (AppController.show_media_entry_mapped_to_plex locals
                    ++ map fst (filter answered answers))%list;
                 AppController.shows_missing_in_plex_found_on_users_list :=
                   (AppController.shows_missing_in_plex_found_on_users_list locals
                    ++ map fst (filter unanswered answers))%list |}
       | Raise e => Raise e
       end, st').
Proof.
  induction entries as [|entry rest IH]; intros locals st r w H; simpl in H.
  - inversion H; subst. exists st. simpl. repeat rewrite app_nil_r.
    destruct locals; auto.
  - destruct (is_looked_up entry) eqn:Hlook.
    + simpl. unfold bind at 1.
      unfold AppController.find_plex_show_body at 1.
      unfold is_looked_up in Hlook. apply andb_prop in Hlook.
      destruct Hlook as [H1 H2]. rewrite H1, H2.
      unfold bind at 1, call.
      destruct (plex_find_all_by_title C entry (world st)) as [[show|e] w1] eqn:Hcall.
      * destruct (library_answers C rest w1) as [r1 w2] eqn:Hrest.
        destruct show as [|sh shs]; simpl.
        -- match goal with
           | |- context [for_each_acc rest _ ?l ?s] =>
               destruct (IH l s r1 w2 Hrest) as [st' [Hw [Hs Hrun]]]
           end.
           exists st'. rewrite Hrun. simpl in Hs.
           destruct r1 as [more|e]; inversion H; subst; clear H;
             split; try reflexivity; split; try exact Hs.
           ++ simpl. unfold AppController.add_missing_item.
              rewrite <- app_assoc. reflexivity.
           ++ reflexivity.
        -- match goal with
           | |- context [for_each_acc rest _ ?l ?s] =>
               destruct (IH l s r1 w2 Hrest) as [st' [Hw [Hs Hrun]]]
           end.
           exists st'. rewrite Hrun. simpl in Hs.
           destruct r1 as [more|e]; inversion H; subst; clear H;
             split; try reflexivity; split; try exact Hs.
           ++ simpl. repeat rewrite <- app_assoc. reflexivity.
           ++ reflexivity.
      * inversion H; subst; clear H. eexists.
        split; [|split; [|reflexivity]]; reflexivity.
    + simpl. unfold bind at 1. rewrite is_looked_up_body by exact Hlook.
      apply IH. exact H.
Qed.

Lemma find_plex_show_by_answers
  (W : Type) (C : Collaborators W) (entries : list MediaEntry.t)
  (st : AppState W) (r : Result (list (MediaEntry.t * list Show.t))) (w : W)
  (Hanswers : library_answers C entries (world st) = (r, w)) :
  exists st',
    world st' = w /\ app_store st' = app_store st /\
    AppController.find_plex_show C entries st =
    (match r with
     | Ok answers =>
         Ok (DownloadableQueue.mk
               (concat (map snd answers))
               (map fst (filter unanswered answers))
               (map fst (filter answered answers)))
     | Raise e => Raise e
     end, st').
Proof.
  unfold AppController.find_plex_show, bind at 1.
  match goal with
  | |- context [for_each_acc entries _ ?l st] =>
      destruct (find_plex_show_loop_answers W C entries l st r w Hanswers)
        as [st1 [Hw [Hs Hrun]]]
  end.
  rewrite Hrun. destruct r as [answers|e]; simpl.
  - eexists. split; [|split; [|reflexivity]]; simpl; assumption.
  - exists st1. auto.
Qed.

(** X1. The queue [find_plex_show] returns is a function of the answers
    the library gives for the entries that pass the two tests, asked in
    list order: the found list is those answers put end to end, the
    matched list is the entries answered with at least one show, the
    missing list is the entries answered with none, both in the order
    asked.  When a query raises, [find_plex_show] raises the same
    exception and returns no queue.  The store is not touched. *)
Theorem find_plex_show_answers
  (W : Type) (C : Collaborators W) (entries : list MediaEntry.t)
  (st : AppState W) (r : Result (list (MediaEntry.t * list Show.t))) (w : W)
  (Hanswers : library_answers C entries (world st) = (r, w)) :
  exists st',
    world st' = w /\ app_store st' = app_store st /\
    AppController.find_plex_show C entries st =
    (match r with
     | Ok answers =>
         Ok (DownloadableQueue.mk
               (concat (map snd answers))
               (map fst (filter unanswered answers))
               (map fst (filter answered answers)))
     | Raise e => Raise e
     end, st').
Proof.
  exact (find_plex_show_by_answers W C entries st r w Hanswers).
Qed.

Lemma find_plex_show_answers_witness :
  exists st',
    world st' = tt /\ app_store st' = [] /\
    AppController.find_plex_show Scenario.mixed_library
      [Scenario.show_a; Scenario.show_b; Scenario.show_d; Scenario.show_c]
      (Scenario.initial []) =
    (Ok (DownloadableQueue.mk [Scenario.plex_show_c] [Scenario.show_b] [Scenario.show_c]),
     st').
Proof.
  apply (find_plex_show_answers unit Scenario.mixed_library
           [Scenario.show_a; Scenario.show_b; Scenario.show_d; Scenario.show_c]
           (Scenario.initial [])
           (Ok [(Scenario.show_b, []); (Scenario.show_c, [Scenario.plex_show_c])]) tt).
  reflexivity.
Defined.

(** A queue that was returned comes from answers the library gave. *)
Lemma find_plex_show_inv
  (W : Type) (C : Collaborators W) (entries : list MediaEntry.t)
  (st st' : AppState W) (q : DownloadableQueue.t) :
  AppController.find_plex_show C entries st = (Ok q, st') ->
  exists answers,
    library_answers C entries (world st) = (Ok answers, world st') /\
    q = DownloadableQueue.mk
          (concat (map snd answers))
          (map fst (filter unanswered answers))
          (map fst (filter answered answers)).
Proof.
  intros Hrun.
  destruct (library_answers C entries (world st)) as [r w] eqn:Hanswers.
  destruct (find_plex_show_by_answers W C entries st r w Hanswers)
    as [st1 [Hw [_ Hrun1]]].
  rewrite Hrun in Hrun1. destruct r as [answers|e]; [|discriminate].
  inversion Hrun1; subst. exists answers. auto.
Qed.

Lemma library_answers_entries
  (W : Type) (C : Collaborators W) (entries : list MediaEntry.t) :
  forall (w w' : W) (answers : list (MediaEntry.t * list Show.t)),
    library_answers C entries w = (Ok answers, w') ->
    map fst answers = filter is_looked_up entries.
Proof.
  induction entries as [|entry rest IH]; intros w w' answers H; simpl in *.
  - inversion H. reflexivity.
  - destruct (is_looked_up entry).
    + destruct (plex_find_all_by_title C entry w) as [[show|e] w1]; [|discriminate].
      destruct (library_answers C rest w1) as [[more|e] w2] eqn:Hrest; [|discriminate].
      inversion H; subst. simpl. f_equal. eapply IH. exact Hrest.
    + eapply IH. exact H.
Qed.

Lemma library_answers_bounded
  (W : Type) (C : Collaborators W) (bound : nat) (entries : list MediaEntry.t) :
  (forall entry w show w',
      plex_find_all_by_title C entry w = (Ok show, w') -> length show <= bound) ->
  forall (w w' : W) (answers : list (MediaEntry.t * list Show.t)),
    library_answers C entries w = (Ok answers, w') ->
    Forall (fun a => length (snd a) <= bound) answers.
Proof.
  intros Hbound.
  induction entries as [|entry rest IH]; intros w w' answers H; simpl in *.
  - inversion H. constructor.
  - destruct (is_looked_up entry).
    + destruct (plex_find_all_by_title C entry w) as [[show|e] w1] eqn:Hcall;
        [|discriminate].
      destruct (library_answers C rest w1) as [[more|e] w2] eqn:Hrest; [|discriminate].
      inversion H; subst. constructor.
      * simpl. eapply Hbound. exact Hcall.
      * eapply IH. exact Hrest.
    + eapply IH. exact H.
Qed.

Lemma answered_below_found (answers : list (MediaEntry.t * list Show.t)) :
  length (map fst (filter answered answers)) <= length (concat (map snd answers)).
Proof.
  induction answers as [|[entry show] rest IH]; simpl.
  - lia.
  - rewrite length_app. unfold answered at 1. simpl.
    destruct show as [|sh shs]; simpl; lia.
Qed.

Lemma answered_equals_found (answers : list (MediaEntry.t * list Show.t)) :
  Forall (fun a => length (snd a) <= 1) answers ->
  length (concat (map snd answers)) = length (map fst (filter answered answers)).
Proof.
  induction 1 as [|[entry show] rest Hshow _ IH]; simpl.
  - reflexivity.
  - rewrite length_app. unfold answered at 1. simpl in *.
    destruct show as [|sh [|sh2 shs]]; simpl in *; lia.
Qed.

Lemma classified_once (answers : list (MediaEntry.t * list Show.t)) :
  length (filter unanswered answers) + length (filter answered answers) =
  length answers.
Proof.
  induction answers as [|a rest IH]; simpl.
  - reflexivity.
  - unfold unanswered at 1. destruct (answered a); simpl; lia.
Qed.

(** X2. In a queue [find_plex_show] returns, the matched list is never
    longer than the found list: every matched entry brought at least one
    show.  The two lists have the same length, as the [zip] of the search
    phase needs, when the library never returns more than one show for an
    entry. *)
Theorem find_plex_show_lengths
  (W : Type) (C : Collaborators W) (entries : list MediaEntry.t)
  (st st' : AppState W) (q : DownloadableQueue.t)
  (Hrun : AppController.find_plex_show C entries st = (Ok q, st')) :
  length (DownloadableQueue.show_media_entry_in_plex q) <=
  length (DownloadableQueue.shows_found_in_plex q) /\
  ((forall entry w show w',
       plex_find_all_by_title C entry w = (Ok show, w') -> length show <= 1) ->
   length (DownloadableQueue.shows_found_in_plex q) =
   length (DownloadableQueue.show_media_entry_in_plex q)).
Proof.
  destruct (find_plex_show_inv W C entries st st' q Hrun) as [answers [Hanswers Hq]].
  subst q. simpl. split.
  - apply answered_below_found.
  - intros Hone. apply answered_equals_found.
    eapply library_answers_bounded; [exact Hone|exact Hanswers].
Qed.

Lemma find_plex_show_lengths_witness :
  length [Scenario.show_c] <= length [Scenario.plex_show_c; Scenario.plex_show_c_dub].
Proof.
  exact (proj1 (find_plex_show_lengths unit Scenario.two_matches [Scenario.show_c]
                  (Scenario.initial [])
                  {| world := tt; app_store := [];
                     events := [FindAllByTitle Scenario.show_c;
                                LogInfo (FetchedListOfShows 2 0)] |}
                  (DownloadableQueue.mk
                     [Scenario.plex_show_c; Scenario.plex_show_c_dub] []
                     [Scenario.show_c])
                  eq_refl)).
Defined.

(** X3. Every entry that passes the two tests is classified exactly once:
    in a queue [find_plex_show] returns, the missing and the matched
    lists together hold as many entries as the input has entries that are
    neither NOT_YET_RELEASED nor COMPLETED, and an entry is in one of the
    two lists exactly when it is such an entry of the input. *)
Theorem find_plex_show_classifies
  (W : Type) (C : Collaborators W) (entries : list MediaEntry.t)
  (st st' : AppState W) (q : DownloadableQueue.t)
  (Hrun : AppController.find_plex_show C entries st = (Ok q, st')) :
  length (DownloadableQueue.shows_missing_in_plex q) +
  length (DownloadableQueue.show_media_entry_in_plex q) =
  length (filter is_looked_up entries) /\
  (forall entry,
      In entry (DownloadableQueue.shows_missing_in_plex q) \/
      In entry (DownloadableQueue.show_media_entry_in_plex q) <->
      In entry entries /\ is_looked_up entry = true).
Proof.
  destruct (find_plex_show_inv W C entries st st' q Hrun) as [answers [Hanswers Hq]].
  pose proof (library_answers_entries W C entries _ _ _ Hanswers) as Hfst.
  subst q. simpl. split.
  - repeat rewrite length_map. rewrite classified_once.
    rewrite <- Hfst, length_map. reflexivity.
  - intros entry. rewrite <- filter_In, <- Hfst.
    repeat rewrite in_map_iff. split.
    + intros [[a [Ha Hin]]|[a [Ha Hin]]]; apply filter_In in Hin;
        exists a; tauto.
    + intros [a [Ha Hin]]. destruct (answered a) eqn:Hans.
      * right. exists a. split; [exact Ha|]. apply filter_In. auto.
      * left. exists a. split; [exact Ha|]. apply filter_In.
        unfold unanswered. rewrite Hans. auto.
Qed.

Lemma find_plex_show_classifies_witness :
  length [Scenario.show_b] + length [Scenario.show_c] =
  length (filter is_looked_up
            [Scenario.show_a; Scenario.show_b; Scenario.show_d; Scenario.show_c]).
Proof.
  exact (proj1 (find_plex_show_classifies unit Scenario.mixed_library
                  [Scenario.show_a; Scenario.show_b; Scenario.show_d; Scenario.show_c]
                  (Scenario.initial [])
                  {| world := tt; app_store := [];
                     events := [FindAllByTitle Scenario.show_b;
                                FindAllByTitle Scenario.show_c;
                                LogInfo (FetchedListOfShows 1 1)] |}
                  (DownloadableQueue.mk [Scenario.plex_show_c] [Scenario.show_b]
                     [Scenario.show_c])
                  eq_refl)).
Defined.

(* ------------------------------------------------------------------ *)
(** ** The phases before the decision loop *)

Section Phases.

Variable W : Type.
Variable C : Collaborators W.
Variable list_name : option string.
Variable config : AppConfig.t.
Variable P : Event -> Prop.
Variable Q : AppStore.t -> AppStore.t -> Prop.
Hypothesis Q_refl : forall s, Q s s.
Hypothesis Q_trans : forall s1 s2 s3, Q s1 s2 -> Q s2 s3 -> Q s1 s3.
Hypothesis P_lookup : forall ev, touches_store_or_client ev = false -> P ev.

Ltac lookup_event := try (apply P_lookup; reflexivity).

Lemma fetch_anime_list_respects :
  respects P Q (AppController.fetch_anime_list C list_name).
Proof.
  unfold AppController.fetch_anime_list.
  apply respects_bind; auto.
  - destruct list_name.
    + apply respects_call; auto; lookup_event.
    + apply respects_ret; auto.
  - intros _. apply respects_call; auto; lookup_event.
Qed.

Lemma find_plex_show_respects (entries : list MediaEntry.t) :
  respects P Q (AppController.find_plex_show C entries).
Proof.
  unfold AppController.find_plex_show.
  apply respects_bind; auto.
  - apply respects_for_each_acc; auto.
    intros entry locals _. unfold AppController.find_plex_show_body.
    destruct (negb _); [|apply respects_ret; auto].
    destruct (negb _); [|apply respects_ret; auto].
    apply respects_bind; auto.
    + apply respects_call; auto; lookup_event.
    + intros [|sh shs]; apply respects_ret; auto.
  - intros locals. apply respects_bind; auto.
    + apply respects_log_info; auto; lookup_event.
    + intros _. apply respects_ret; auto.
Qed.

Lemma search_nyaa_for_shows_respects (download_queue : DownloadableQueue.t) :
  respects P Q (AppController.search_nyaa_for_shows C config download_queue).
Proof.
  unfold AppController.search_nyaa_for_shows.
  apply respects_bind; auto; [apply respects_log_info; auto; lookup_event|].
  intros _. apply respects_bind; auto.
  - apply respects_for_each_acc; auto.
    intros media acc _. unfold AppController.search_missing_body.
    apply respects_bind; auto; [apply respects_call; auto; lookup_event|].
    intros results. destruct (Nat.ltb 0 _); [apply respects_ret; auto|].
    apply respects_bind; auto; [apply respects_log_info; auto; lookup_event|].
    intros _. apply respects_ret; auto.
  - intros missing_results.
    apply respects_bind; auto; [apply respects_log_info; auto; lookup_event|].
    intros _. apply respects_bind; auto.
    + apply respects_for_each_acc; auto.
      intros [show media] acc _. unfold AppController.search_found_body.
      apply respects_bind; auto; [apply respects_call; auto; lookup_event|].
      intros results. destruct (Nat.ltb 0 _); [apply respects_ret; auto|].
      apply respects_bind; auto; [apply respects_log_info; auto; lookup_event|].
      intros _. apply respects_ret; auto.
    + intros found_results. apply respects_ret; auto.
Qed.

End Phases.

(** X4. Fetching the list, reconciling it with the library and searching
    the index never look into the application store, never write to it,
    and never call the download client, the direct download or the file
    mover: each of the three methods leaves the store exactly as it was,
    whatever the collaborators answer and whether it returns or raises. *)
Theorem lookup_phases_leave_store
  (W : Type) (C : Collaborators W) (list_name : option string)
  (config : AppConfig.t) :
  respects (fun ev => touches_store_or_client ev = false) eq
           (AppController.fetch_anime_list C list_name) /\
  (forall entries,
      respects (fun ev => touches_store_or_client ev = false) eq
               (AppController.find_plex_show C entries)) /\
  (forall download_queue,
      respects (fun ev => touches_store_or_client ev = false) eq
               (AppController.search_nyaa_for_shows C config download_queue)).
Proof.
  split; [|split]; intros.
  - apply fetch_anime_list_respects; auto. intros; congruence.
  - apply find_plex_show_respects; auto. intros; congruence.
  - apply search_nyaa_for_shows_respects; auto. intros; congruence.
Qed.

(* ------------------------------------------------------------------ *)
(** ** A whole run against a store that already holds a name *)

Section Keeps.

Variable W : Type.
Variable X : string.

Local Abbreviation no_mutation := (fun ev : Event => mutation_for ev <> Some X).
Local Abbreviation record_stays :=
  (fun s s' : AppStore.t => has_record s X -> has_record s' X).

Lemma record_stays_trans (s1 s2 s3 : AppStore.t) :
  record_stays s1 s2 -> record_stays s2 s3 -> record_stays s1 s3.
Proof. cbv beta. auto. Qed.

Lemma keeps_record_respects {A : Type} (m : M W A) :
  respects no_mutation record_stays m -> keeps_record X m.
Proof. intros H st _. apply H. Qed.

Lemma keeps_record_bind {A B : Type} (m : M W A) (k : A -> M W B) :
  keeps_record X m -> (forall a, keeps_record X (k a)) -> keeps_record X (bind m k).
Proof.
  intros Hm Hk st Hrec. unfold bind.
  specialize (Hm st Hrec). destruct (m st) as [[a|e] st1]; simpl in *.
  - eapply trace_rel_trans; [apply record_stays_trans|exact Hm|].
    apply Hk. destruct Hm as [HQ _]. auto.
  - exact Hm.
Qed.

Lemma keeps_record_try_except {A : Type} (body : M W A) (handler : PyException -> M W A) :
  keeps_record X body -> (forall e, keeps_record X (handler e)) ->
  keeps_record X (try_except body handler).
Proof.
  intros Hb Hh st Hrec. unfold try_except.
  specialize (Hb st Hrec). destruct (body st) as [[a|e] st1]; simpl in *.
  - exact Hb.
  - eapply trace_rel_trans; [apply record_stays_trans|exact Hb|].
    apply Hh. destruct Hb as [HQ _]. auto.
Qed.

Lemma lookup_event_no_mutation (ev : Event) :
  touches_store_or_client ev = false -> no_mutation ev.
Proof. destruct ev; simpl; intros H; congruence. Qed.

Lemma start_application_keeps_record
  (C : Collaborators W) (list_name : option string) (config : AppConfig.t) :
  keeps_record X (AppController.start_application C list_name config).
Proof.
  unfold AppController.start_application.
  apply keeps_record_try_except.
  - unfold AppController.start_application_try.
    apply keeps_record_bind.
    + apply keeps_record_respects. apply fetch_anime_list_respects; auto.
      apply lookup_event_no_mutation.
    + intros [|entry entries].
      * apply keeps_record_respects. apply respects_ret; auto.
      * apply keeps_record_bind.
        -- apply keeps_record_respects. apply find_plex_show_respects; auto.
           apply lookup_event_no_mutation.
        -- intros download_queue.
           destruct (DownloadableQueue.truthy _).
           ++ apply keeps_record_bind.
              ** apply keeps_record_respects.
                 apply search_nyaa_for_shows_respects; auto.
                 apply lookup_event_no_mutation.
              ** intros search_results.
                 unfold AppController.start_application_decide.
                 destruct (Nat.ltb 0 _).
                 --- intros st Hrec. apply decision_loop_dedup. exact Hrec.
                 --- apply keeps_record_respects. apply respects_log_info; auto.
                     discriminate.
           ++ apply keeps_record_respects. apply respects_ret; auto.
  - intros e. apply keeps_record_respects. apply respects_log_error; auto.
    discriminate.
Qed.

End Keeps.

(** X5. A whole run of [start_application] against a store that holds a
    record under the name [X] makes no client call, no direct download,
    no file move and no upsert for a candidate named [X], at any stage
    and however the run ends, and the store still holds a record under
    [X] when it returns: a name handled once is never handled again by
    later runs. *)
Theorem start_application_idempotent
  (W : Type) (C : Collaborators W) (list_name : option string)
  (config : AppConfig.t) (X : string) (st : AppState W)
  (Hrecord : has_record (app_store st) X) :
  let st' := snd (AppController.start_application C list_name config st) in
  has_record (app_store st') X /\
  exists d,
    events st' = (events st ++ d)%list /\
    Forall (fun ev => mutation_for ev <> Some X) d.
Proof.
  destruct (start_application_keeps_record W X C list_name config st Hrecord)
    as [HQ Hd].
  split; [apply HQ; exact Hrecord|exact Hd].
Qed.

Lemma start_application_idempotent_witness :
  let st' := snd (AppController.start_application
                    (Scenario.missing_show_b (Ok true) (Ok true) (Ok tt))
                    (Some "CURRENT") Scenario.config
                    (Scenario.initial [Scenario.show_b_e05])) in
  has_record (app_store st') "Show.B.E05" /\
  exists d,
    events st' = (events (Scenario.initial [Scenario.show_b_e05]) ++ d)%list /\
    Forall (fun ev => mutation_for ev <> Some "Show.B.E05") d.
Proof.
  apply (start_application_idempotent unit
           (Scenario.missing_show_b (Ok true) (Ok true) (Ok tt))
           (Some "CURRENT") Scenario.config "Show.B.E05"
           (Scenario.initial [Scenario.show_b_e05])).
  unfold has_record. simpl. discriminate.
Defined.

(* ------------------------------------------------------------------ *)
(** ** Anatomy of a candidate's turn *)

Section TurnCases.

Variable W : Type.
Variable C : Collaborators W.
Variable config : AppConfig.t.

Lemma queue_downloaded_torrent_file_raise
  (torrent_info : TorrentInfo.t) (st : AppState W) (e : PyException) (w : W) :
  transmission_add_torrent_magnet C (TorrentInfo.download_url torrent_info)
    (world st) = (Raise e, w) ->
  AppController.queue_downloaded_torrent_file C torrent_info st =
  (Raise e,
   {| world := w;
      app_store := app_store st;
      events := (events st ++ [AddTorrentMagnet torrent_info])%list |}).
Proof.
  intros Hcall. unfold AppController.queue_downloaded_torrent_file, bind, call.
  rewrite Hcall. reflexivity.
Qed.

Lemma download_torrent_file_failed
  (torrent_info : TorrentInfo.t) (st : AppState W) (w : W) :
  nyaa_download_torrent_file C torrent_info config (world st) = (Ok false, w) ->
  AppController.download_torrent_file C config torrent_info st =
  (Ok tt,
   {| world := w;
      app_store := app_store st;
      events :=
        (events st ++
         [LogInfo (DownloadingTorrent (TorrentInfo.name torrent_info));
          DownloadTorrentFile torrent_info;
          LogInfo (FailedToDownload (TorrentInfo.anime_info torrent_info))])%list |}).
Proof.
  intros Hcall.
  unfold AppController.download_torrent_file, bind, log_info, emit, call.
  simpl. rewrite Hcall. simpl. repeat rewrite <- app_assoc. reflexivity.
Qed.

Lemma download_torrent_file_raise
  (torrent_info : TorrentInfo.t) (st : AppState W) (e : PyException) (w : W) :
  nyaa_download_torrent_file C torrent_info config (world st) = (Raise e, w) ->
  AppController.download_torrent_file C config torrent_info st =
  (Raise e,
   {| world := w;
      app_store := app_store st;
      events :=
        (events st ++
         [LogInfo (DownloadingTorrent (TorrentInfo.name torrent_info));
          DownloadTorrentFile torrent_info])%list |}).
Proof.
  intros Hcall.
  unfold AppController.download_torrent_file, bind, log_info, emit, call.
  simpl. rewrite Hcall. simpl. repeat rewrite <- app_assoc. reflexivity.
Qed.

Ltac saved_flag :=
  let model := fresh "model" in
  let Hin := fresh "Hin" in
  intros model Hin; simpl in Hin;
  repeat (destruct Hin as [Hin|Hin]; [try discriminate; inversion Hin; subst; eauto|]);
  contradiction.

Ltac no_save_here := saved_flag.

(** What a turn does, along every answer the collaborators can give: the
    events it adds never show an attempt after a write; it either leaves
    the store as it was and writes nothing, or returns having written a
    record under the candidate's name after a successful enqueue or a
    successful direct download; when it raises, the exception is the
    one the client or the direct download raised; and every record it
    writes carries in [is_queued] the client's answer. *)
Lemma turn_anatomy (torrent_info : TorrentInfo.t) (st st' : AppState W)
  (r : Result unit) :
  AppController.start_application_body C config torrent_info st = (r, st') ->
  let refused := TorrentInfo.set_is_queued torrent_info false in
  let url := TorrentInfo.download_url torrent_info in
  exists d,
    events st' = (events st ++ d)%list /\
    quiet_after_save d = true /\
    (app_store st' = app_store st /\ forallb (fun ev => negb (is_save ev)) d = true
     \/
     r = Ok tt /\
     has_record (app_store st') (TorrentInfo.name torrent_info) /\
     ((exists w1, transmission_add_torrent_magnet C url (world st) = (Ok true, w1)) \/
      (exists w1 w2,
          transmission_add_torrent_magnet C url (world st) = (Ok false, w1) /\
          nyaa_download_torrent_file C refused config w1 = (Ok true, w2)))) /\
    (forall e, r = Raise e ->
               app_store st' = app_store st /\
               (transmission_add_torrent_magnet C url (world st) =
                (Raise e, world st') \/
                exists w1,
                  transmission_add_torrent_magnet C url (world st) = (Ok false, w1) /\
                  nyaa_download_torrent_file C refused config w1 =
                  (Raise e, world st'))) /\
    (forall model,
        In (StoreSaveOrUpdate model) d ->
        exists w1,
          transmission_add_torrent_magnet C url (world st) =
          (Ok (TorrentInfo.is_queued model), w1)).
Proof.
  intros Hrun refused url.
  unfold AppController.start_application_body in Hrun.
  destruct (TorrentInfo.anime_info torrent_info) as [info|] eqn:Hinfo.
  2:{ inversion Hrun; subst; clear Hrun.
      eexists. simpl. split; [reflexivity|]. split; [reflexivity|].
      split; [left; split; reflexivity|].
      split; [intros e H; discriminate|]. no_save_here. }
  unfold bind at 1, AppController.find_downloadable_torrents, app_store_search,
    AppController.start_application_guard in Hrun.
  destruct (AppStore.search (app_store st) (TorrentInfo.name torrent_info))
    as [|found_record more_records] eqn:Hsearch.
  2:{ inversion Hrun; subst; clear Hrun.
      eexists. simpl. rewrite <- app_assoc.
      split; [reflexivity|]. split; [reflexivity|].
      split; [left; split; reflexivity|].
      split; [intros e H; discriminate|]. no_save_here. }
  cbn [length Nat.ltb Nat.leb] in Hrun. unfold bind at 1 in Hrun.
  destruct (transmission_add_torrent_magnet C url (world st))
    as [[success|magnet_error] w1] eqn:Hmagnet.
  2:{ rewrite (queue_downloaded_torrent_file_raise torrent_info _ magnet_error w1)
        in Hrun by exact Hmagnet.
      inversion Hrun; subst; clear Hrun.
      eexists. simpl. rewrite <- app_assoc.
      split; [reflexivity|]. split; [reflexivity|].
      split; [left; split; reflexivity|].
      split; [|no_save_here].
      intros e H. inversion H; subst. split; [reflexivity|]. left. reflexivity. }
  match type of Hrun with
  | context [AppController.queue_downloaded_torrent_file C torrent_info ?s] =>
      rewrite (proj2 (queue_downloaded_torrent_file_run W C torrent_info s success w1
                        Hmagnet)) in Hrun
  end.
  destruct success; cbn [negb] in Hrun.
  { inversion Hrun; subst; clear Hrun.
    eexists. simpl. rewrite <- app_assoc.
    split; [reflexivity|]. split; [reflexivity|].
    split; [|split; [intros e H; discriminate|saved_flag]].
    right. split; [reflexivity|]. split.
    - apply (save_or_update_has_record (app_store st)
               (TorrentInfo.set_is_queued torrent_info true)).
    - left. eauto. }
  fold refused in Hrun.
  destruct (nyaa_download_torrent_file C refused config w1)
    as [[downloaded|download_error] w2] eqn:Hdownload.
  2:{ rewrite (download_torrent_file_raise refused _ download_error w2)
        in Hrun by exact Hdownload.
      inversion Hrun; subst; clear Hrun.
      eexists. simpl. repeat rewrite <- app_assoc.
      split; [reflexivity|]. split; [reflexivity|].
      split; [left; split; reflexivity|].
      split; [|no_save_here].
      intros e H. inversion H; subst. split; [reflexivity|]. right. eauto. }
  destruct downloaded.
  2:{ rewrite (download_torrent_file_failed refused _ w2) in Hrun by exact Hdownload.
      inversion Hrun; subst; clear Hrun.
      eexists. simpl. repeat rewrite <- app_assoc.
      split; [reflexivity|]. split; [reflexivity|].
      split; [left; split; reflexivity|].
      split; [intros e H; discriminate|]. no_save_here. }
  destruct (storage_copy_or_move_file C
              (TorrentInfo.name refused ++ ".torrent")
              (AppConfig.build_parent_save_path config (AnimeInfo.anime_title info))
              (AppConfig.torrent_monitor_directory config)
              (AppConfig.torrent_keep_file_after_queuing config) w2)
    as [move_result w3] eqn:Hmove.
  match type of Hrun with
  | context [AppController.download_torrent_file C config refused ?s] =>
      rewrite (download_torrent_file_run W C config refused info s w2 w3 move_result
                 Hinfo Hdownload Hmove) in Hrun
  end.
  inversion Hrun; subst; clear Hrun.
  eexists. cbn [fst snd events app_store world]. repeat rewrite <- app_assoc.
  split; [reflexivity|]. split; [destruct move_result; reflexivity|].
  split; [|split; [intros e H; discriminate|destruct move_result; saved_flag]].
  right. split; [reflexivity|]. split.
  - destruct move_result as [[]|e].
    + apply save_or_update_keeps_record.
      apply (save_or_update_has_record (app_store st) refused).
    + apply (save_or_update_has_record (app_store st) refused).
  - right. eauto.
Qed.

End TurnCases.

(* ------------------------------------------------------------------ *)
(** ** What a turn writes, and what makes it raise *)

(** X6. A candidate's turn in the decision loop changes the store only on
    a success: either the store is after the turn what it was before, or
    the turn returned normally, the client accepted the magnet or, the
    client having refused it, the direct download succeeded, and the
    store then holds a record under the candidate's name.  A refusal
    followed by a failed download, a skip, or any exception leaves no
    record behind. *)
Theorem turn_writes_only_on_success
  (W : Type) (C : Collaborators W) (config : AppConfig.t)
  (torrent_info : TorrentInfo.t) (st st' : AppState W) (r : Result unit)
  (Hrun : AppController.start_application_body C config torrent_info st = (r, st')) :
  app_store st' = app_store st \/
  (r = Ok tt /\
   has_record (app_store st') (TorrentInfo.name torrent_info) /\
   ((exists w1,
        transmission_add_torrent_magnet C (TorrentInfo.download_url torrent_info)
          (world st) = (Ok true, w1)) \/
    (exists w1 w2,
        transmission_add_torrent_magnet C (TorrentInfo.download_url torrent_info)
          (world st) = (Ok false, w1) /\
        nyaa_download_torrent_file C (TorrentInfo.set_is_queued torrent_info false)
          config w1 = (Ok true, w2)))).
Proof.
  destruct (turn_anatomy W C config torrent_info st st' r Hrun)
    as [d [_ [_ [[[Hsame _]|Hwritten] _]]]].
  - left. exact Hsame.
  - right. exact Hwritten.
Qed.

Lemma turn_writes_only_on_success_witness :
  exists r st',
    AppController.start_application_body
      (Scenario.missing_show_b (Ok false) (Ok false) (Ok tt))
      Scenario.config Scenario.show_b_e05 (Scenario.initial []) = (r, st') /\
    (app_store st' = [] \/ r = Ok tt /\ has_record (app_store st') "Show.B.E05").
Proof.
  eexists. eexists. split; [reflexivity|].
  destruct (turn_writes_only_on_success unit
              (Scenario.missing_show_b (Ok false) (Ok false) (Ok tt))
              Scenario.config Scenario.show_b_e05 (Scenario.initial []) _ _ eq_refl)
    as [Hsame|[Hok [Hrec _]]].
  - left. exact Hsame.
  - right. split; [exact Hok|exact Hrec].
Defined.

(** X7. Take the store as one that may raise.  When a candidate's turn
    raises, the decision loop ends there: the loop over the whole list
    raises the same exception in the state reached at the raise, so no
    later candidate is visited.  The exception is the one raised by one
    of the five calls of a turn that stand outside the [try] of the move
    step: the store lookup, the enqueue, the record write after an
    accepted magnet, the direct download, or the record write after a
    successful download.  The file mover and the write after the move
    never make a turn raise. *)
Theorem decision_loop_abort
  (W : Type) (C : Collaborators W) (config : AppConfig.t) (F : StoreFaults W)
  (before after : list TorrentInfo.t) (torrent_info : TorrentInfo.t)
  (st st1 st2 : AppState W) (e : PyException)
  (Hbefore : for_each before (turn_over C config F) st = (Ok tt, st1))
  (Hturn : turn_over C config F torrent_info st1 = (Raise e, st2)) :
  for_each (before ++ torrent_info :: after) (turn_over C config F) st =
  (Raise e, st2) /\
  turn_raises C config F torrent_info (world st1) (app_store st1) e (world st2).
Proof.
  split.
  - rewrite for_each_app. unfold bind at 1. rewrite Hbefore.
    simpl. unfold bind. rewrite Hturn. reflexivity.
  - revert Hturn. unfold_turn.
    destruct (TorrentInfo.anime_info torrent_info) as [info|] eqn:Hinfo;
      [|discriminate].
    destruct (search_fault F (TorrentInfo.name torrent_info) (world st1))
      as [[lookup_error|] w0] eqn:Hsearch.
    { intros H. inversion H; subst. eapply lookup_raises; eauto. }
    destruct (AppStore.search (app_store st1) (TorrentInfo.name torrent_info))
      as [|found_record more_records] eqn:Hrecord; [|discriminate].
    simpl.
    destruct (transmission_add_torrent_magnet C
                (TorrentInfo.download_url torrent_info) w0)
      as [[success|magnet_error] w1] eqn:Hmagnet.
    2:{ intros H. inversion H; subst. eapply enqueue_raises; eauto. }
    destruct success; simpl.
    { destruct (save_fault F AfterEnqueue
                  (TorrentInfo.set_is_queued torrent_info true) w1)
        as [[[write_error written]|] w2] eqn:Hsave; [|discriminate].
      intros H. inversion H; subst. eapply write_after_enqueue_raises; eauto. }
    destruct (nyaa_download_torrent_file C
                (TorrentInfo.set_is_queued torrent_info false) config w1)
      as [[downloaded|download_error] w2] eqn:Hdownload.
    2:{ intros H. inversion H; subst. eapply download_raises; eauto. }
    destruct downloaded; simpl; [|discriminate].
    destruct (save_fault F AfterDownload
                (TorrentInfo.set_is_queued torrent_info false) w2)
      as [[[write_error written]|] w3] eqn:Hsave.
    { intros H. inversion H; subst. eapply write_after_download_raises; eauto. }
    simpl. rewrite Hinfo. simpl.
    destruct (move_call C config (TorrentInfo.set_is_queued torrent_info false) info w3)
      as [[[]|move_error] w4] eqn:Hmove;
      unfold move_call in Hmove; simpl in Hmove; rewrite Hmove; simpl;
      [|discriminate].
    destruct (save_fault F AfterMove (TorrentInfo.set_is_queued torrent_info false) w4)
      as [[[last_error written]|] w5]; discriminate.
Qed.

Lemma decision_loop_abort_witness :
  for_each ([] ++ Scenario.show_c_e07 :: [Scenario.show_b_e05])
    (turn_over (Scenario.missing_show_b (Ok true) (Ok true) (Ok tt))
       Scenario.config (Scenario.write_fails_at AfterEnqueue))
    (Scenario.initial []) =
  (Raise (Exception "database is locked"),
   {| world := tt; app_store := [];
      events := [StoreSearch "Show.C.E07"; AddTorrentMagnet Scenario.show_c_e07;
                 StoreSaveOrUpdate (TorrentInfo.set_is_queued Scenario.show_c_e07 true)] |}).
Proof.
  exact (proj1 (decision_loop_abort unit
                  (Scenario.missing_show_b (Ok true) (Ok true) (Ok tt))
                  Scenario.config (Scenario.write_fails_at AfterEnqueue)
                  [] [Scenario.show_b_e05] Scenario.show_c_e07
                  (Scenario.initial []) (Scenario.initial [])
                  {| world := tt; app_store := [];
                     events := [StoreSearch "Show.C.E07";
                                AddTorrentMagnet Scenario.show_c_e07;
                                StoreSaveOrUpdate
                                  (TorrentInfo.set_is_queued Scenario.show_c_e07 true)] |}
                  (Exception "database is locked") eq_refl eq_refl)).
Defined.

Lemma filter_empty_existsb {A : Type} (f : A -> bool) (l : list A) :
  filter f l = [] -> existsb f l = false.
Proof.
  induction l as [|x rest IH]; simpl; [reflexivity|].
  destruct (f x); [discriminate|]. exact IH.
Qed.

(** A first upsert under a name leaves exactly that record under it. *)
Lemma save_or_update_first (s : AppStore.t) (model : AppStore.document) :
  AppStore.search s (TorrentInfo.name model) = [] ->
  AppStore.search (AppStore.save_or_update s model) (TorrentInfo.name model) = [model].
Proof.
  intros Hnew. unfold AppStore.search, AppStore.save_or_update in *.
  rewrite (filter_empty_existsb _ _ Hnew).
  rewrite filter_app, Hnew. simpl.
  unfold AppStore.where_name. rewrite String.eqb_refl. reflexivity.
Qed.

(** X8. A candidate with [anime_info], no record in the store, and a
    magnet the client accepts: its turn makes the lookup, the enqueue and
    one upsert, and nothing else (no direct download, no file move);
    afterwards the store holds exactly one record under the candidate's
    name, and that record has [is_queued] true. *)
Theorem enqueue_success_records
  (W : Type) (C : Collaborators W) (config : AppConfig.t)
  (torrent_info : TorrentInfo.t) (info : AnimeInfo.t)
  (st : AppState W) (w1 : W)
  (Hinfo : TorrentInfo.anime_info torrent_info = Some info)
  (Hnew : AppStore.search (app_store st) (TorrentInfo.name torrent_info) = [])
  (Hmagnet : transmission_add_torrent_magnet C
               (TorrentInfo.download_url torrent_info) (world st) = (Ok true, w1)) :
  let queued := TorrentInfo.set_is_queued torrent_info true in
  let st' :=
    {| world := w1;
       app_store := AppStore.save_or_update (app_store st)
                      (AppStore.create_dictionary_class queued);
       events :=
         (events st ++
          [StoreSearch (TorrentInfo.name torrent_info);
           AddTorrentMagnet torrent_info;
           StoreSaveOrUpdate (AppStore.create_dictionary_class queued)])%list |} in
  AppController.start_application_body C config torrent_info st = (Ok tt, st') /\
  AppStore.search (app_store st') (TorrentInfo.name torrent_info) = [queued] /\
  TorrentInfo.is_queued queued = true.
Proof.
  intros queued st'. split; [|split; [|reflexivity]].
  - unfold AppController.start_application_body. rewrite Hinfo.
    unfold bind at 1, AppController.find_downloadable_torrents, app_store_search,
      AppController.start_application_guard.
    rewrite (no_record_length _ _ Hnew). unfold bind at 1.
    rewrite (proj2 (queue_downloaded_torrent_file_run W C torrent_info
                      {| world := world st; app_store := app_store st;
                         events := (events st ++
                                    [StoreSearch (TorrentInfo.name torrent_info)])%list |}
                      true w1 Hmagnet)).
    subst st' queued. simpl. unfold ret. rewrite <- app_assoc. reflexivity.
  - subst st'. simpl.
    apply (save_or_update_first (app_store st) queued). exact Hnew.
Qed.

Lemma enqueue_success_records_witness :
  AppController.start_application_body
    (Scenario.missing_show_b (Ok true) (Ok true) (Ok tt))
    Scenario.config Scenario.show_b_e05 (Scenario.initial []) =
  (Ok tt,
   {| world := tt;
      app_store := [TorrentInfo.set_is_queued Scenario.show_b_e05 true];
      events :=
        [StoreSearch "Show.B.E05";
         AddTorrentMagnet Scenario.show_b_e05;
         StoreSaveOrUpdate (TorrentInfo.set_is_queued Scenario.show_b_e05 true)] |}).
Proof.
  exact (proj1 (enqueue_success_records unit
                  (Scenario.missing_show_b (Ok true) (Ok true) (Ok tt))
                  Scenario.config Scenario.show_b_e05 (AnimeInfo.mk "Show B")
                  (Scenario.initial []) tt eq_refl eq_refl eq_refl)).
Defined.

(* ------------------------------------------------------------------ *)
(** ** One acquisition per name in a run *)

Lemma quiet_after_save_tail (ev : Event) (d : list Event) :
  quiet_after_save (ev :: d) = true -> quiet_after_save d = true.
Proof. simpl. intros H. apply andb_prop in H. tauto. Qed.

Lemma quiet_after_save_split (d d1 d2 : list Event) (model : AppStore.document) :
  quiet_after_save d = true ->
  d = (d1 ++ StoreSaveOrUpdate model :: d2)%list ->
  Forall (fun ev => is_acquire ev = false) d2.
Proof.
  revert d. induction d1 as [|ev rest IH]; intros d Hquiet Hd; subst d.
  - simpl in Hquiet. apply andb_prop in Hquiet. destruct Hquiet as [Hq _].
    rewrite forallb_forall in Hq. apply Forall_forall. intros ev Hev.
    specialize (Hq ev Hev). destruct (is_acquire ev); [discriminate|reflexivity].
  - apply (IH (rest ++ StoreSaveOrUpdate model :: d2)%list); [|reflexivity].
    eapply quiet_after_save_tail. exact Hquiet.
Qed.

Lemma save_in_split (da db d1 d2 : list Event) (ev : Event) :
  (da ++ db)%list = (d1 ++ ev :: d2)%list ->
  (exists d2a, da = (d1 ++ ev :: d2a)%list /\ d2 = (d2a ++ db)%list) \/
  (exists d1b, db = (d1b ++ ev :: d2)%list /\ d1 = (da ++ d1b)%list).
Proof.
  revert d1. induction da as [|a rest IH]; intros d1 H; simpl in H.
  - right. exists d1. auto.
  - destruct d1 as [|b d1']; simpl in H; inversion H; subst.
    + left. exists rest. auto.
    + destruct (IH d1' H2) as [[d2a [Ha Hb]]|[d1b [Ha Hb]]].
      * left. exists d2a. subst. auto.
      * right. exists d1b. subst. auto.
Qed.

Lemma acquired_once_app (da db : list Event) :
  quiet_after_save da = true ->
  acquired_once db ->
  (forall model,
      In (StoreSaveOrUpdate model) da ->
      Forall (fun ev => is_acquire ev = true ->
                        mutation_for ev <> Some (TorrentInfo.name model)) db) ->
  acquired_once (da ++ db).
Proof.
  intros Hquiet Hdb Hcross d1 model d2 Hsplit.
  destruct (save_in_split da db d1 d2 _ Hsplit) as [[d2a [Ha Hb]]|[d1b [Ha Hb]]].
  - subst d2. apply Forall_app. split.
    + pose proof (quiet_after_save_split da d1 d2a model Hquiet Ha) as Hq.
      eapply Forall_impl; [|exact Hq]. simpl. intros ev H1 H2. congruence.
    + apply Hcross. rewrite Ha. apply in_or_app. right. left. reflexivity.
  - eapply Hdb. exact Ha.
Qed.

Lemma turn_saves_name
  (W : Type) (C : Collaborators W) (config : AppConfig.t)
  (torrent_info : TorrentInfo.t) (st : AppState W) (d : list Event)
  (model : AppStore.document) :
  events (snd (AppController.start_application_body C config torrent_info st)) =
  (events st ++ d)%list ->
  In (StoreSaveOrUpdate model) d ->
  TorrentInfo.name model = TorrentInfo.name torrent_info.
Proof.
  intros Hd Hin.
  destruct (start_application_body_respects W C config
              (concerns (TorrentInfo.name torrent_info)) (fun _ _ => True)
              (TorrentInfo.name torrent_info)
              (fun _ => I) (fun _ _ _ _ _ => I) (fun _ H => H) (fun _ _ _ => I)
              torrent_info eq_refl st) as [_ [d' [Hd' Hall]]].
  rewrite Hd in Hd'. apply app_inv_head in Hd'. subst d'.
  rewrite Forall_forall in Hall. exact (Hall _ Hin).
Qed.

Lemma decision_loop_acquired_once
  (W : Type) (C : Collaborators W) (config : AppConfig.t)
  (search_results : list TorrentInfo.t) :
  forall st : AppState W,
  exists d,
    events (snd (for_each search_results
                   (AppController.start_application_body C config) st)) =
    (events st ++ d)%list /\
    acquired_once d.
Proof.
  induction search_results as [|torrent_info rest IH]; intros st.
  - exists []. simpl. rewrite app_nil_r. split; [reflexivity|].
    intros d1 model d2 H. destruct d1; discriminate.
  - simpl. unfold bind.
    destruct (AppController.start_application_body C config torrent_info st)
      as [r st1] eqn:Hturn.
    destruct (turn_anatomy W C config torrent_info st st1 r Hturn)
      as [dt [Hdt [Hquiet [Hstore _]]]].
    assert (Hname : forall model, In (StoreSaveOrUpdate model) dt ->
                                  TorrentInfo.name model = TorrentInfo.name torrent_info).
    { intros model Hin.
      apply (turn_saves_name W C config torrent_info st dt model); [|exact Hin].
      rewrite Hturn. exact Hdt. }
    assert (Hrec : forall model, In (StoreSaveOrUpdate model) dt ->
                                 has_record (app_store st1) (TorrentInfo.name model)).
    { intros model Hin. rewrite (Hname model Hin).
      destruct Hstore as [[_ Hnosave]|[_ [Hrec _]]]; [|exact Hrec].
      rewrite forallb_forall in Hnosave. specialize (Hnosave _ Hin). discriminate. }
    destruct r as [[]|e].
    + destruct (IH st1) as [dr [Hdr Honce]].
      exists (dt ++ dr)%list. split.
      * rewrite Hdr, Hdt, app_assoc. reflexivity.
      * apply acquired_once_app; auto.
        intros model Hin.
        destruct (decision_loop_dedup W C config (TorrentInfo.name model) rest st1
                    (Hrec model Hin)) as [_ [dr' [Hdr' Hall]]].
        rewrite Hdr in Hdr'. apply app_inv_head in Hdr'. subst dr'.
        eapply Forall_impl; [|exact Hall]. simpl. auto.
    + exists dt. split; [exact Hdt|].
      rewrite <- (app_nil_r dt). apply acquired_once_app; auto.
      intros d1 model d2 H. destruct d1; discriminate.
Qed.

(** X9. In one run of the decision loop, from any store and for any list
    of search results, repeated names included: once a record has been
    written under a name, no enqueue with the client and no direct
    download is made for that name in the rest of the run.  A name is
    acquired at most once per run. *)
Theorem decision_loop_one_acquisition
  (W : Type) (C : Collaborators W) (config : AppConfig.t)
  (search_results : list TorrentInfo.t) (st : AppState W) :
  exists d,
    events (snd (for_each search_results
                   (AppController.start_application_body C config) st)) =
    (events st ++ d)%list /\
    forall d1 model d2,
      d = (d1 ++ StoreSaveOrUpdate model :: d2)%list ->
      Forall (fun ev => is_acquire ev = true ->
                        mutation_for ev <> Some (TorrentInfo.name model)) d2.
Proof.
  exact (decision_loop_acquired_once W C config search_results st).
Qed.

Lemma decision_loop_one_acquisition_witness :
  Forall (fun ev => is_acquire ev = true -> mutation_for ev <> Some "Show.B.E05")
         [StoreSearch "Show.B.E05";
          LogInfo (SkippingExistingDownload (Some (AnimeInfo.mk "Show B")))].
Proof.
  destruct (decision_loop_one_acquisition unit
              (Scenario.missing_show_b (Ok true) (Ok true) (Ok tt)) Scenario.config
              [Scenario.show_b_e05; Scenario.show_b_e05] (Scenario.initial []))
    as [d [Hd Honce]].
  simpl in Hd.
  exact (Honce [StoreSearch "Show.B.E05"; AddTorrentMagnet Scenario.show_b_e05]
               (TorrentInfo.set_is_queued Scenario.show_b_e05 true)
               [StoreSearch "Show.B.E05";
                LogInfo (SkippingExistingDownload (Some (AnimeInfo.mk "Show B")))]
               (eq_sym Hd)).
Defined.

(* ------------------------------------------------------------------ *)
(** ** The move step on its own *)

(** X10. Take the store as one that may raise.
    [__move_torrent_to_monitored_directory] never lets an exception out.
    For a torrent without [anime_info] the attribute access fails before
    any file is touched: no move is attempted, the error is logged, and
    the store and the world are as before.  For a torrent with
    [anime_info] the file mover is called once.  When it raises, no write
    is attempted, the store is as before and the error is logged.  When
    it returns, the record write is attempted once: if the write returns
    the store holds the upserted record, and if the write raises, that
    error too is logged and the method still returns normally. *)
Theorem move_torrent_to_monitored_directory_absorbs
  (W : Type) (C : Collaborators W) (config : AppConfig.t) (F : StoreFaults W)
  (torrent_info : TorrentInfo.t) (st : AppState W) :
  exists st',
    AppControllerOver.move_torrent_to_monitored_directory C config
      (store_save_or_raise F) torrent_info st = (Ok tt, st') /\
    match TorrentInfo.anime_info torrent_info with
    | None =>
        world st' = world st /\ app_store st' = app_store st /\
        exists e, events st' = (events st ++ [LogError (MoveFailed e)])%list
    | Some info =>
        exists moved w1,
          move_call C config torrent_info info (world st) = (moved, w1) /\
          match moved with
          | Raise e =>
              world st' = w1 /\ app_store st' = app_store st /\
              events st' =
              (events st ++ [move_event config torrent_info info;
                             LogError (MoveFailed e)])%list
          | Ok _ =>
              exists fault,
                save_fault F AfterMove
                  (AppStore.create_dictionary_class torrent_info) w1 =
                (fault, world st') /\
                match fault with
                | None =>
                    app_store st' =
                    AppStore.save_or_update (app_store st)
                      (AppStore.create_dictionary_class torrent_info) /\
                    events st' =
                    (events st ++
                     [move_event config torrent_info info;
                      StoreSaveOrUpdate
                        (AppStore.create_dictionary_class torrent_info)])%list
                | Some (e, written) =>
                    events st' =
                    (events st ++
                     [move_event config torrent_info info;
                      StoreSaveOrUpdate
                        (AppStore.create_dictionary_class torrent_info);
                      LogError (MoveFailed e)])%list
                end
          end
    end.
Proof.
  unfold AppControllerOver.move_torrent_to_monitored_directory,
    AppController.anime_info_anime_title, store_save_or_raise,
    try_except, bind, call, log_error, emit, ret, raise.
  destruct (TorrentInfo.anime_info torrent_info) as [info|] eqn:Hinfo.
  2:{ eexists. split; [reflexivity|]. simpl. eauto. }
  destruct (move_call C config torrent_info info (world st))
    as [[[]|e] w1] eqn:Hmove;
    pose proof Hmove as Hcall; unfold move_call in Hcall; rewrite Hcall; simpl.
  2:{ eexists. split; [reflexivity|]. exists (Raise e), w1.
      simpl. rewrite <- app_assoc. auto. }
  destruct (save_fault F AfterMove (AppStore.create_dictionary_class torrent_info) w1)
    as [[[e written]|] w2] eqn:Hsave.
  - eexists. split; [reflexivity|]. exists (Ok tt), w1. split; [reflexivity|].
    exists (Some (e, written)). simpl. repeat rewrite <- app_assoc. auto.
  - eexists. split; [reflexivity|]. exists (Ok tt), w1. split; [reflexivity|].
    exists None. simpl. repeat rewrite <- app_assoc. auto.
Qed.

(* ------------------------------------------------------------------ *)
(** ** Runs that end before the search *)

Lemma find_plex_show_loop_skips
  (W : Type) (C : Collaborators W) (entries : list MediaEntry.t) :
  Forall (fun entry => is_looked_up entry = false) entries ->
  forall (locals : AppController.find_plex_show_locals) (st : AppState W),
    for_each_acc entries (AppController.find_plex_show_body C) locals st =
    (Ok locals, st).
Proof.
  induction 1 as [|entry rest Hentry _ IH]; intros locals st; simpl.
  - reflexivity.
  - unfold bind. rewrite is_looked_up_body by exact Hentry. apply IH.
Qed.

(** X11. When every entry of the fetched list is NOT_YET_RELEASED or
    COMPLETED (an empty list included), the run is over after the
    reconciliation: [start_application] returns normally without a single
    library query, index search, store access or download, having added
    to the events of the fetch at most the line that reports a
    reconciliation with nothing found and nothing missing. *)
Theorem start_application_nothing_to_look_up
  (W : Type) (C : Collaborators W) (list_name : option string)
  (config : AppConfig.t) (st st1 : AppState W) (entries : list MediaEntry.t)
  (Hfetch : AppController.fetch_anime_list C list_name st = (Ok entries, st1))
  (Hskip : Forall (fun entry => is_looked_up entry = false) entries) :
  AppController.start_application C list_name config st =
  (Ok tt,
   {| world := world st1;
      app_store := app_store st1;
      events :=
        (events st1 ++
         match entries with
         | [] => []
         | _ :: _ => [LogInfo (FetchedListOfShows 0 0)]
         end)%list |}).
Proof.
  unfold AppController.start_application, try_except,
    AppController.start_application_try, bind at 1.
  rewrite Hfetch.
  destruct entries as [|entry rest].
  - simpl. rewrite app_nil_r. destruct st1; reflexivity.
  - unfold bind at 1, AppController.find_plex_show, bind at 1.
    rewrite (find_plex_show_loop_skips W C (entry :: rest) Hskip).
    reflexivity.
Qed.

Lemma start_application_nothing_to_look_up_witness :
  AppController.start_application Scenario.all_completed (Some "CURRENT")
    Scenario.config (Scenario.initial []) =
  (Ok tt,
   {| world := tt; app_store := [];
      events := [MakeRequest; AniListSearch (Some "CURRENT");
                 LogInfo (FetchedListOfShows 0 0)] |}).
Proof.
  apply (start_application_nothing_to_look_up unit Scenario.all_completed
           (Some "CURRENT") Scenario.config (Scenario.initial [])
           {| world := tt; app_store := [];
              events := [MakeRequest; AniListSearch (Some "CURRENT")] |}
           [Scenario.show_a] eq_refl).
  repeat constructor.
Defined.

(** X12. When the remote list service cannot be reached (a list name is
    set and [make_request] raises), the local list is not read and
    nothing else is attempted: [start_application] returns normally, the
    store is untouched, and the run consists of the request and the log
    line of the uncaught exception. *)
Theorem start_application_list_unreachable
  (W : Type) (C : Collaborators W) (name : string)
  (config : AppConfig.t) (st : AppState W) (e : PyException) (w : W)
  (Hrequest : anilist_make_request C (world st) = (Raise e, w)) :
  AppController.start_application C (Some name) config st =
  (Ok tt,
   {| world := w;
      app_store := app_store st;
      events := (events st ++ [MakeRequest; LogError (UncaughtException e)])%list |}).
Proof.
  unfold AppController.start_application, try_except,
    AppController.start_application_try, bind at 1,
    AppController.fetch_anime_list, bind at 1, call at 1.
  rewrite Hrequest. unfold log_error, emit. simpl.
  rewrite <- app_assoc. reflexivity.
Qed.

Lemma start_application_list_unreachable_witness :
  AppController.start_application Scenario.request_refused (Some "CURRENT")
    Scenario.config (Scenario.initial []) =
  (Ok tt,
   {| world := tt; app_store := [];
      events := [MakeRequest;
                 LogError (UncaughtException (Exception "429 Too Many Requests"))] |}).
Proof.
  apply (start_application_list_unreachable unit Scenario.request_refused "CURRENT"
           Scenario.config (Scenario.initial [])
           (Exception "429 Too Many Requests") tt).
  reflexivity.
Defined.

(* ------------------------------------------------------------------ *)
(** ** The searches the search phase issues *)

Lemma search_missing_loop_calls
  (W : Type) (C : Collaborators W) (config : AppConfig.t)
  (missing : list MediaEntry.t) :
  forall (acc results : list TorrentInfo.t) (st st' : AppState W),
    for_each_acc missing (AppController.search_missing_body C config) acc st =
    (Ok results, st') ->
    exists d,
      events st' = (events st ++ d)%list /\
      filter is_search_call d = map SearchForMissingShows missing.
Proof.
  induction missing as [|media rest IH]; intros acc results st st' H; simpl in H.
  - inversion H; subst. exists []. rewrite app_nil_r. auto.
  - unfold bind at 1, AppController.search_missing_body at 1, bind at 1, call in H.
    destruct (nyaa_search_for_missing_shows C media config (world st))
      as [[r|e] w1]; [|discriminate].
    destruct r as [|t r]; simpl in H.
    + unfold bind, log_info, emit in H. simpl in H.
      destruct (IH _ _ _ _ H) as [d [Hd Hcalls]].
      eexists (_ :: _ :: d). simpl in *.
      rewrite Hd, <- !app_assoc. simpl. rewrite Hcalls. auto.
    + destruct (IH _ _ _ _ H) as [d [Hd Hcalls]].
      eexists (_ :: d). simpl in *.
      rewrite Hd, <- !app_assoc. simpl. rewrite Hcalls. auto.
Qed.

Lemma search_found_loop_calls
  (W : Type) (C : Collaborators W) (config : AppConfig.t)
  (pairs : list (Show.t * MediaEntry.t)) :
  forall (acc results : list TorrentInfo.t) (st st' : AppState W),
    for_each_acc pairs (AppController.search_found_body C config) acc st =
    (Ok results, st') ->
    exists d,
      events st' = (events st ++ d)%list /\
      filter is_search_call d = map search_for_shows_event pairs.
Proof.
  induction pairs as [|[show media] rest IH]; intros acc results st st' H; simpl in H.
  - inversion H; subst. exists []. rewrite app_nil_r. auto.
  - unfold bind at 1, bind at 1, call in H.
    destruct (nyaa_search_for_shows C show media config (world st))
      as [[r|e] w1]; [|discriminate].
    destruct r as [|t r]; simpl in H.
    + unfold bind, log_info, emit in H. simpl in H.
      destruct (IH _ _ _ _ H) as [d [Hd Hcalls]].
      eexists (_ :: _ :: d). simpl in *.
      rewrite Hd, <- !app_assoc. simpl. rewrite Hcalls. auto.
    + destruct (IH _ _ _ _ H) as [d [Hd Hcalls]].
      eexists (_ :: d). simpl in *.
      rewrite Hd, <- !app_assoc. simpl. rewrite Hcalls. auto.
Qed.

(** X13. When [search_nyaa_for_shows] returns, the searches it issued
    are, in this order: one missing-search per entry of the missing list,
    in list order, then one found-search per pair of the found and the
    matched list taken position by position.  The pairing stops at the
    shorter of the two lists, so the number of found-searches is the
    smaller of their lengths: a found item beyond the last matched entry
    is never searched. *)
Theorem search_nyaa_for_shows_calls
  (W : Type) (C : Collaborators W) (config : AppConfig.t)
  (download_queue : DownloadableQueue.t) (st st' : AppState W)
  (results : list TorrentInfo.t)
  (Hrun : AppController.search_nyaa_for_shows C config download_queue st =
          (Ok results, st')) :
  let found := DownloadableQueue.shows_found_in_plex download_queue in
  let missing := DownloadableQueue.shows_missing_in_plex download_queue in
  let matched := DownloadableQueue.show_media_entry_in_plex download_queue in
  exists d,
    events st' = (events st ++ d)%list /\
    filter is_search_call d =
    (map SearchForMissingShows missing ++
     map search_for_shows_event (combine found matched))%list /\
    length (filter is_search_call d) =
    length missing + Nat.min (length found) (length matched).
Proof.
  intros found missing matched.
  unfold AppController.search_nyaa_for_shows in Hrun.
  unfold bind at 1, log_info at 1, emit at 1 in Hrun.
  unfold bind at 1 in Hrun.
  match type of Hrun with
  | context [for_each_acc ?l ?b [] ?s] =>
      destruct (for_each_acc l b [] s) as [[rm|e] st1] eqn:Hmissing; [|discriminate]
  end.
  apply search_missing_loop_calls in Hmissing. destruct Hmissing as [dm [Hdm Hcm]].
  unfold bind at 1, log_info at 1, emit at 1 in Hrun.
  unfold bind at 1 in Hrun.
  match type of Hrun with
  | context [for_each_acc ?l ?b [] ?s] =>
      destruct (for_each_acc l b [] s) as [[rf|e] st2] eqn:Hfound; [|discriminate]
  end.
  apply search_found_loop_calls in Hfound. destruct Hfound as [df [Hdf Hcf]].
  unfold ret in Hrun. inversion Hrun; subst; clear Hrun.
  exists (LogInfo SearchingForMissingItems :: dm
          ++ LogInfo SearchingForMatchingItems :: df)%list.
  simpl in *. split; [|split].
  - rewrite Hdf, Hdm. repeat rewrite <- app_assoc. reflexivity.
  - rewrite filter_app. simpl. rewrite Hcm, Hcf. reflexivity.
  - rewrite filter_app. simpl. rewrite Hcm, Hcf.
    rewrite length_app, !length_map, length_combine. reflexivity.
Qed.

Lemma search_nyaa_for_shows_calls_witness :
  exists d,
    [LogInfo SearchingForMissingItems;
     LogInfo SearchingForMatchingItems;
     SearchForShows Scenario.plex_show_c Scenario.show_c;
     LogInfo (NoNewReleasesFound Scenario.show_c);
     SearchForShows Scenario.plex_show_c_dub Scenario.show_b;
     LogInfo (NoNewReleasesFound Scenario.show_b)] = ([] ++ d)%list /\
    filter is_search_call d =
    ([] ++ [SearchForShows Scenario.plex_show_c Scenario.show_c;
            SearchForShows Scenario.plex_show_c_dub Scenario.show_b])%list /\
    length (filter is_search_call d) = 0 + 2.
Proof.
  exact (search_nyaa_for_shows_calls unit Scenario.two_matches_then_one Scenario.config
           (DownloadableQueue.mk
              [Scenario.plex_show_c; Scenario.plex_show_c_dub; Scenario.plex_show_b] []
              [Scenario.show_c; Scenario.show_b])
           (Scenario.initial [])
           {| world := tt; app_store := [];
              events := [LogInfo SearchingForMissingItems;
                         LogInfo SearchingForMatchingItems;
                         SearchForShows Scenario.plex_show_c Scenario.show_c;
                         LogInfo (NoNewReleasesFound Scenario.show_c);
                         SearchForShows Scenario.plex_show_c_dub Scenario.show_b;
                         LogInfo (NoNewReleasesFound Scenario.show_b)] |}
           [] eq_refl).
Defined.

(* ------------------------------------------------------------------ *)
(** ** What the stored flag says *)

(** X14. Every record a candidate's turn writes is under the candidate's
    name and carries in [is_queued] the answer the download client gave
    to this turn's enqueue, whatever the flag was on the candidate as it
    came from the search: true on a record written after an accepted
    magnet, false on a record written on the fallback path. *)
Theorem stored_flag_is_client_answer
  (W : Type) (C : Collaborators W) (config : AppConfig.t)
  (torrent_info : TorrentInfo.t) (st st' : AppState W) (r : Result unit)
  (Hrun : AppController.start_application_body C config torrent_info st = (r, st')) :
  exists d,
    events st' = (events st ++ d)%list /\
    forall model,
      In (StoreSaveOrUpdate model) d ->
      TorrentInfo.name model = TorrentInfo.name torrent_info /\
      exists w1,
        transmission_add_torrent_magnet C (TorrentInfo.download_url torrent_info)
          (world st) = (Ok (TorrentInfo.is_queued model), w1).
Proof.
  destruct (turn_anatomy W C config torrent_info st st' r Hrun)
    as [d [Hd [_ [_ [_ Hflag]]]]].
  exists d. split; [exact Hd|].
  intros model Hin. split; [|exact (Hflag model Hin)].
  apply (turn_saves_name W C config torrent_info st d model); [|exact Hin].
  rewrite Hrun. exact Hd.
Qed.

Lemma stored_flag_is_client_answer_witness :
  exists d,
    events (snd (AppController.start_application_body
                   (Scenario.missing_show_b (Ok false) (Ok true) (Ok tt))
                   Scenario.config
                   (TorrentInfo.set_is_queued Scenario.show_b_e05 true)
                   (Scenario.initial []))) = ([] ++ d)%list /\
    forall model,
      In (StoreSaveOrUpdate model) d ->
      TorrentInfo.name model = "Show.B.E05" /\
      exists w1 : unit,
        (@Ok bool false, tt) = (Ok (TorrentInfo.is_queued model), w1).
Proof.
  exact (stored_flag_is_client_answer unit
           (Scenario.missing_show_b (Ok false) (Ok true) (Ok tt))
           Scenario.config
           (TorrentInfo.set_is_queued Scenario.show_b_e05 true)
           (Scenario.initial []) _ _ eq_refl).
Defined.

(* ------------------------------------------------------------------ *)
(** ** The alphabet of the decision loop *)

Lemma respects_weaken {W A : Type} (P P' : Event -> Prop)
  (Q : AppStore.t -> AppStore.t -> Prop) (m : M W A) :
  (forall ev, P ev -> P' ev) -> respects P Q m -> respects P' Q m.
Proof.
  intros Himpl Hm st. destruct (Hm st) as [HQ [d [Hd Hall]]].
  split; [exact HQ|]. exists d. split; [exact Hd|].
  eapply Forall_impl; [|exact Hall]. exact Himpl.
Qed.

Section Alphabet.

Variable W : Type.
Variable C : Collaborators W.
Variable config : AppConfig.t.
Variable candidate : TorrentInfo.t.

Local Abbreviation anything := (fun _ _ : AppStore.t => True).
Local Abbreviation refused := (TorrentInfo.set_is_queued candidate false).

Lemma move_torrent_to_monitored_directory_alphabet :
  respects (turn_event config candidate) anything
           (AppController.move_torrent_to_monitored_directory C config refused).
Proof.
  intros st. split; [exact I|].
  destruct (TorrentInfo.anime_info candidate) as [info|] eqn:Hinfo.
  - destruct (storage_copy_or_move_file C
                (TorrentInfo.name refused ++ ".torrent")
                (AppConfig.build_parent_save_path config (AnimeInfo.anime_title info))
                (AppConfig.torrent_monitor_directory config)
                (AppConfig.torrent_keep_file_after_queuing config)
                (world st)) as [r w] eqn:Hmove.
    rewrite (move_torrent_to_monitored_directory_run W C config refused info
               st r w Hinfo Hmove).
    eexists. simpl. split; [reflexivity|].
    constructor; [apply turn_move; exact Hinfo|].
    destruct r as [[]|e]; repeat constructor.
  - unfold AppController.move_torrent_to_monitored_directory, try_except, bind,
      AppController.anime_info_anime_title.
    simpl. rewrite Hinfo. simpl.
    eexists. split; [reflexivity|]. repeat constructor.
Qed.

Lemma download_torrent_file_alphabet :
  respects (turn_event config candidate) anything
           (AppController.download_torrent_file C config refused).
Proof.
  unfold AppController.download_torrent_file.
  apply respects_bind; auto; [apply respects_log_info; auto; constructor|].
  intros _. apply respects_bind; auto; [apply respects_call; auto; constructor|].
  intros [|].
  - apply respects_bind; auto.
    + apply respects_app_store_save_or_update; auto. constructor.
    + intros _. apply respects_bind; auto; [apply respects_log_info; auto; constructor|].
      intros _. apply move_torrent_to_monitored_directory_alphabet.
  - apply respects_log_info; auto. constructor.
Qed.

Lemma queue_downloaded_torrent_file_result
  (st st' : AppState W) (r : bool * TorrentInfo.t) :
  AppController.queue_downloaded_torrent_file C candidate st = (Ok r, st') ->
  snd r = TorrentInfo.set_is_queued candidate (fst r).
Proof.
  unfold AppController.queue_downloaded_torrent_file, bind, call.
  destruct (transmission_add_torrent_magnet C _ (world st)) as [[success|e] w];
    [|discriminate].
  destruct success; simpl; intros H; inversion H; reflexivity.
Qed.

Lemma start_application_body_alphabet :
  respects (turn_event config candidate) anything
           (AppController.start_application_body C config candidate).
Proof.
  unfold AppController.start_application_body.
  destruct (TorrentInfo.anime_info candidate);
    [|apply respects_log_info; auto; constructor].
  apply respects_bind; auto; [apply respects_app_store_search; auto; constructor|].
  intros downloaded_torrent. unfold AppController.start_application_guard.
  destruct (Nat.ltb _ 1); [|apply respects_log_info; auto; constructor].
  apply respects_bind_post
    with (post := fun r : bool * TorrentInfo.t =>
                    snd r = TorrentInfo.set_is_queued candidate (fst r)); auto.
  - unfold AppController.queue_downloaded_torrent_file.
    apply respects_bind; auto; [apply respects_call; auto; constructor|].
    intros success. apply respects_bind; auto.
    + destruct success; [|apply respects_ret; auto].
      apply respects_app_store_save_or_update; auto. constructor.
    + intros _. apply respects_ret; auto.
  - intros st r st' Hrun. eapply queue_downloaded_torrent_file_result. exact Hrun.
  - intros [queued queued_info] Hr. simpl in Hr. subst queued_info.
    destruct queued; simpl.
    + apply respects_ret; auto.
    + apply download_torrent_file_alphabet.
Qed.

End Alphabet.

(** X15. Whatever the decision loop does to the store, the client or the
    file system, it does for a candidate of the list that carries
    [anime_info], and in one of five shapes: the lookup under the
    candidate's name, the enqueue of the candidate, an upsert of the
    candidate with its flag set, the direct download of the candidate
    flagged as refused, or the move of the file named after the
    candidate with the suffix .torrent, from the save path built from the
    candidate's title to the configured monitored directory, with the
    configured keep flag.  Nothing is looked up, written, fetched or
    moved for anything the search did not return. *)
Theorem decision_loop_alphabet
  (W : Type) (C : Collaborators W) (config : AppConfig.t)
  (search_results : list TorrentInfo.t) (st : AppState W) :
  exists d,
    events (snd (for_each search_results
                   (AppController.start_application_body C config) st)) =
    (events st ++ d)%list /\
    Forall (fun ev =>
              touches_store_or_client ev = true ->
              exists candidate info,
                In candidate search_results /\
                TorrentInfo.anime_info candidate = Some info /\
                turn_event config candidate ev) d.
Proof.
  assert (Hloop :
    respects (fun ev =>
                touches_store_or_client ev = true ->
                exists candidate info,
                  In candidate search_results /\
                  TorrentInfo.anime_info candidate = Some info /\
                  turn_event config candidate ev)
             (fun _ _ => True)
             (for_each search_results (AppController.start_application_body C config))).
  { apply respects_for_each; auto.
    intros candidate Hin.
    destruct (TorrentInfo.anime_info candidate) as [info|] eqn:Hinfo.
    - apply respects_weaken with (P := turn_event config candidate).
      + intros ev Hev _. exists candidate, info. auto.
      + apply start_application_body_alphabet.
    - unfold AppController.start_application_body. rewrite Hinfo.
      apply respects_log_info; auto. intros H. discriminate. }
  destruct (Hloop st) as [_ Hd]. exact Hd.
Qed.

Lemma decision_loop_alphabet_witness :
  exists candidate info,
    In candidate [Scenario.show_b_e05] /\
    TorrentInfo.anime_info candidate = Some info /\
    turn_event Scenario.config candidate
      (CopyOrMoveFile Scenario.show_b_e05
         "Show.B.E05.torrent" "/anime/Show B" "/watch" false).
Proof.
  destruct (decision_loop_alphabet unit
              (Scenario.missing_show_b (Ok false) (Ok true) (Ok tt)) Scenario.config
              [Scenario.show_b_e05] (Scenario.initial []))
    as [d [Hd Hall]].
  simpl in Hd. subst d.
  rewrite Forall_forall in Hall.
  apply Hall; [|reflexivity].
  simpl. do 6 right. left. reflexivity.
Defined.
